(** * fastchain: nodes and chains

    A shallow embedding of [fastchain/nodes.py] and of the chain object of
    [fastchain/chains.py], and the properties of the execution model that
    the specification states about them.

    Python values are a small inductive type; [None] is the value the
    source tests with [is None].  A node's [_process] is a computation
    over an explicit [world]: the reporters created so far, the records
    they received and the trace of the user callables that were called. *)

From Stdlib Require Import List String Ascii ZArith Bool Lia PeanoNat.
Import ListNotations.
Local Open Scope list_scope.
Set Warnings "-register-all".

(** ** Python values *)

Inductive value : Type :=
| VNone
| VBool (b : bool)
| VInt (z : Z)
| VStr (s : string)
| VList (items : list value)
| VTuple (items : list value)
| VDict (entries : list (value * value))
| VObject (repr : string).

(** [v is None] *)
Definition is_None (v : value) : bool :=
  match v with VNone => true | _ => false end.

(** Truth value of an object, as [bool(v)] computes it. *)
Definition truthy (v : value) : bool :=
  match v with
  | VNone => false
  | VBool b => b
  | VInt z => negb (Z.eqb z 0)
  | VStr s => negb (String.eqb s EmptyString)
  | VList l | VTuple l => match l with [] => false | _ => true end
  | VDict d => match d with [] => false | _ => true end
  | VObject _ => true
  end.

(** Lists and dicts cannot be hashed, a tuple can when its items can. *)
Fixpoint hashable (v : value) : bool :=
  match v with
  | VList _ | VDict _ => false
  | VTuple xs => forallb hashable xs
  | _ => true
  end.

(** Equality of dict keys: [True == 1] and [False == 0]. *)
Fixpoint key_eqb (a b : value) : bool :=
  match a, b with
  | VNone, VNone => true
  | VBool x, VBool y => Bool.eqb x y
  | VBool x, VInt y => Z.eqb (if x then 1 else 0) y
  | VInt x, VBool y => Z.eqb x (if y then 1 else 0)
  | VInt x, VInt y => Z.eqb x y
  | VStr x, VStr y => String.eqb x y
  | VObject x, VObject y => String.eqb x y
  | VTuple xs, VTuple ys =>
      (fix all2 (xs ys : list value) : bool :=
         match xs, ys with
         | [], [] => true
         | x :: xs', y :: ys' => key_eqb x y && all2 xs' ys'
         | _, _ => false
         end) xs ys
  | _, _ => false
  end.

(** [d[k] = v] on a dict kept in insertion order: an existing key keeps
    its place and its key object. *)
Fixpoint dict_set (k v : value) (d : list (value * value)) : list (value * value) :=
  match d with
  | [] => [(k, v)]
  | (k', v') :: rest =>
      if key_eqb k' k then (k', v) :: rest else (k', v') :: dict_set k v rest
  end.

Fixpoint chars (s : string) : list value :=
  match s with
  | EmptyString => []
  | String c rest => VStr (String c EmptyString) :: chars rest
  end.

(** ** Exceptions and results *)

Inductive exn : Type :=
| TypeError (msg : string)
| ValueError (msg : string)
| KeyError (key : value)
| UserException (tag : string)
| UserBaseException (tag : string).

(** [isinstance(e, Exception)]: what [except Exception] catches.
    [UserBaseException] stands for [KeyboardInterrupt], [SystemExit] and
    the like. *)
Definition is_Exception (e : exn) : bool :=
  match e with UserBaseException _ => false | _ => true end.

Inductive outcome (A : Type) : Type :=
| Ret (a : A)
| Raise (e : exn).
Arguments Ret {A} a.
Arguments Raise {A} e.

(** [iter(v)] run to exhaustion. *)
Definition iterate (v : value) : outcome (list value) :=
  match v with
  | VList l | VTuple l => Ret l
  | VStr s => Ret (chars s)
  | VDict d => Ret (map fst d)
  | _ => Raise (TypeError "object is not iterable")
  end.

(** [a, b = v] *)
Definition unpack2 (v : value) : outcome (value * value) :=
  match v with
  | VNone | VBool _ | VInt _ | VObject _ =>
      Raise (TypeError "cannot unpack non-iterable object")
  | _ =>
      match iterate v with
      | Ret [a; b] => Ret (a, b)
      | Ret _ => Raise (ValueError "wrong number of values to unpack")
      | Raise e => Raise e
      end
  end.

(** A user callable: deterministic, it returns or raises.  [fn_async]
    tells a coroutine function ([is_async]); [fn_name] is what [get_name]
    infers. *)
Record callable : Type := {
  fn_name : string;
  fn_async : bool;
  fn_body : value -> outcome value
}.

(** Modelled from the spec: [_util.asyncify], the evaluate-then-resolve
    wrapper that lifts a synchronous callable into the awaitable
    contract. *)
Definition asyncify (f : callable) : callable :=
  {| fn_name := fn_name f; fn_async := true; fn_body := fn_body f |}.

Definition get_name (f : callable) : string := fn_name f.
Definition is_async (f : callable) : bool := fn_async f.

(** ** The reporter *)

Module reporter.

Inductive Severity : Type := NORMAL | OPTIONAL | REQUIRED.

Definition is_OPTIONAL (s : Severity) : bool :=
  match s with OPTIONAL => true | _ => false end.

(** Modelled from the spec: the [Reporter] class of [reporter.py].
    [Reporter(name)] constructs a root, [reporter(scope)] yields a named
    child scope of the same root, [success] and [failure] record an
    outcome. A reporter is the identity of its root and the names from
    the root to its scope. *)
Record Reporter : Type := {
  rp_root : nat;
  rp_scope : list value
}.

Inductive record : Type :=
| success (input output : value)
| failure (error : exn) (severity : Severity) (input : value).

End reporter.
Export reporter.

(** The state a call runs in. *)
Record world : Type := {
  roots : nat;                          (* root reporters created so far *)
  log : list (Reporter * record);       (* outcomes recorded, oldest first *)
  calls : list (string * value)         (* user callables called, oldest first *)
}.

Definition world0 : world := {| roots := 0; log := []; calls := [] |}.

Definition M (A : Type) : Type := world -> outcome A * world.

Definition ret {A} (a : A) : M A := fun w => (Ret a, w).
Definition raise {A} (e : exn) : M A := fun w => (Raise e, w).
Definition bind {A B} (m : M A) (k : A -> M B) : M B :=
  fun w => match m w with
           | (Ret a, w') => k a w'
           | (Raise e, w') => (Raise e, w')
           end.
Definition lift {A} (o : outcome A) : M A := fun w => (o, w).

Notation "x <- m ;; k" := (bind m (fun x => k))
  (at level 61, m at next level, right associativity).

(** [Reporter(name)] *)
Definition new_Reporter (name : value) : M Reporter :=
  fun w => (Ret {| rp_root := roots w; rp_scope := [name] |},
            {| roots := S (roots w); log := log w; calls := calls w |}).

(** [reporter(scope)] *)
Definition scoped (r : Reporter) (scope : value) : Reporter :=
  {| rp_root := rp_root r; rp_scope := rp_scope r ++ [scope] |}.

Definition record_on (r : Reporter) (rc : record) : M unit :=
  fun w => (Ret tt,
            {| roots := roots w; log := log w ++ [(r, rc)]; calls := calls w |}).

(** The call [func(arg)] leaves a trace. *)
Definition called (f : callable) (arg : value) : M unit :=
  fun w => (Ret tt,
            {| roots := roots w; log := log w;
               calls := calls w ++ [(fn_name f, arg)] |}).

(** The records a reporter's root has received. *)
Definition received (r : Reporter) (w : world) : list (Reporter * record) :=
  filter (fun e => Nat.eqb (rp_root (fst e)) (rp_root r)) (log w).

(** ** nodes.py *)

Module nodes.

Inductive model_kind : Type := ListModel | DictModel.

(** A node of the synchronous classes ([Node], [Chain], [Loop],
    [ListModel], [DictModel]) or, with the same attributes, of their
    [Async] subclasses; which of the two hierarchies a tree belongs to is
    told by the function that runs it ([process] or [aprocess]) and by
    the [hierarchy] tag of a [chainable].  A tree is of one hierarchy throughout, as
    [build], [async_build], [to_async] and the operators make it.
    [len_] is the private attribute [__len] that the constructor stores. *)
Inductive BaseNode : Type :=
| Node (func : callable) (name : string) (severity : Severity)
| Chain (nodes : list BaseNode) (len_ : nat) (name : option string)
        (severity : Severity)
| Loop (node : BaseNode) (len_ : nat) (name : option string)
       (severity : Severity)
| Model (kind : model_kind) (nodes : list (value * BaseNode)) (len_ : nat)
        (name : option string) (severity : Severity).

Definition severity (n : BaseNode) : Severity :=
  match n with
  | Node _ _ s | Chain _ _ _ s | Loop _ _ _ s | Model _ _ _ _ s => s
  end.

Definition name (n : BaseNode) : option string :=
  match n with
  | Node _ nm _ => Some nm
  | Chain _ _ nm _ | Loop _ _ nm _ | Model _ _ _ nm _ => nm
  end.

(** [__len__] *)
Definition len (n : BaseNode) : nat :=
  match n with
  | Node _ _ _ => 1
  | Chain _ l _ _ | Loop _ l _ _ | Model _ _ l _ _ => l
  end.

Definition name_value (nm : option string) : value :=
  match nm with Some s => VStr s | None => VNone end.

(** The constructors, [__init__] of each class: the severity starts as
    [NORMAL], a container stores the sum of its children's sizes. *)
Definition Node_init (func : callable) (name : string) : BaseNode :=
  Node func name NORMAL.

Definition Chain_init (nodes : list BaseNode) (name : option string) : BaseNode :=
  Chain nodes (list_sum (map len nodes)) name NORMAL.

Definition Loop_init (node : BaseNode) : BaseNode :=
  Loop node (len node) (name node) NORMAL.

Definition Model_init (kind : model_kind) (nodes : list (value * BaseNode)) : BaseNode :=
  Model kind nodes (list_sum (map (fun bn => len (snd bn)) nodes)) None NORMAL.

Definition set_severity (s : Severity) (n : BaseNode) : BaseNode :=
  match n with
  | Node f nm _ => Node f nm s
  | Chain ns l nm _ => Chain ns l nm s
  | Loop c l nm _ => Loop c l nm s
  | Model k ns l nm _ => Model k ns l nm s
  end.

Definition set_name (new : string) (n : BaseNode) : BaseNode :=
  match n with
  | Node f _ s => Node f new s
  | Chain ns l _ s => Chain ns l (Some new) s
  | Loop c l _ s => Loop c l (Some new) s
  | Model k ns l _ s => Model k ns l (Some new) s
  end.

(** [copy]: every class calls its own constructor again. *)
Fixpoint copy (self : BaseNode) : BaseNode :=
  match self with
  | Node func nm _ => Node_init func nm
  | Chain ns _ nm _ => Chain_init (map copy ns) nm
  | Loop c _ _ _ => Loop_init (copy c)
  | Model k ns _ _ _ => Model_init k (map (fun bn => (fst bn, copy (snd bn))) ns)
  end.

Definition optional (self : BaseNode) : BaseNode :=
  set_severity OPTIONAL (copy self).

Definition required (self : BaseNode) : BaseNode :=
  set_severity REQUIRED (copy self).

(** [named]; [validate_name] of [_util] is a parameter: it returns the
    name or raises. *)
Definition named (validate_name : string -> outcome string)
    (self : BaseNode) (new : string) : outcome BaseNode :=
  match validate_name new with
  | Ret nm => Ret (set_name nm (copy self))
  | Raise e => Raise e
  end.

(** *** Running a node *)

(** [self.func(arg)] in [Node._process]: a coroutine function returns a
    coroutine object without running its body. *)
Definition apply_func (f : callable) (arg : value) : M value :=
  _ <- called f arg ;;
  lift (if fn_async f then Ret (VObject "coroutine") else fn_body f arg).

(** [await self.func(arg)] in [AsyncNode._process]: what a plain
    function returns cannot be awaited. *)
Definition await_func (f : callable) (arg : value) : M value :=
  _ <- called f arg ;;
  lift (if fn_async f then fn_body f arg
        else match fn_body f arg with
             | Ret _ => Raise (TypeError "object can't be used in 'await' expression")
             | Raise e => Raise e
             end).

(** The [try / except Exception / else] of [Node._process] and
    [AsyncNode._process]: a failure is reported and the function falls
    off its end, which returns [None]. *)
Definition try_report (body : M value) (sev : Severity) (arg : value)
    (reporter : Reporter) : M value :=
  fun w =>
    match body w with
    | (Ret result, w') =>
        (_ <- record_on reporter (success arg result) ;; ret result) w'
    | (Raise error, w') =>
        if is_Exception error
        then (_ <- record_on reporter (failure error sev arg) ;; ret VNone) w'
        else (Raise error, w')
    end.

(** [BaseNode.__call__(self, arg, reporter)]: the reporter it is given is
    not used, [_process] runs on [Reporter(self.name)]. *)
Definition BaseNode_call (_process : BaseNode -> value -> Reporter -> M value)
    (self : BaseNode) (arg : value) (reporter : option Reporter) : M value :=
  r <- new_Reporter (name_value (name self)) ;;
  _process self arg r.

(** A generator: each step runs, then yields an item or is filtered out. *)
Definition generator (A : Type) : Type := list (M (option A)).

(** [list_converter]: [[result for _, result in results]] *)
Fixpoint list_converter (results : generator (value * value)) : M (list value) :=
  match results with
  | [] => ret []
  | step :: rest =>
      item <- step ;;
      out <- list_converter rest ;;
      ret (match item with Some (_, result) => result :: out | None => out end)
  end.

(** [dict_converter]: [{branch: result for branch, result in results}],
    [acc] is the dict under construction. *)
Fixpoint dict_converter (acc : list (value * value))
    (results : generator (value * value)) : M (list (value * value)) :=
  match results with
  | [] => ret acc
  | step :: rest =>
      item <- step ;;
      match item with
      | Some (branch, result) =>
          if hashable branch then dict_converter (dict_set branch result acc) rest
          else raise (TypeError "unhashable type")
      | None => dict_converter acc rest
      end
  end.

(** [self.convert] of [ListModel] and [DictModel] (and of their [Async]
    forms). *)
Definition convert (kind : model_kind) (results : generator (value * value)) : M value :=
  match kind with
  | ListModel => l <- list_converter results ;; ret (VList l)
  | DictModel => d <- dict_converter [] results ;; ret (VDict d)
  end.

(** The filter of [Model._process]:
    [if not (result is None and severity is OPTIONAL)]. *)
Definition keep (branch result : value) (sev : Severity) : option (value * value) :=
  if is_None result && is_OPTIONAL sev then None else Some (branch, result).

Section Containers.

(** [node(arg, reporter)] of a child; awaited in the [Async] classes. *)
Variable call : BaseNode -> value -> option Reporter -> M value.

(** The loop of [Chain._process] and of [AsyncChain._process]. *)
Fixpoint chain_loop (self_name : option string) (reporter : Reporter)
    (nodes : list BaseNode) (arg : value) : M value :=
  match nodes with
  | [] => ret arg
  | node :: rest =>
      res <- call node arg (Some (scoped reporter (name_value self_name))) ;;
      if is_None res then
        if is_OPTIONAL (severity node)
        then chain_loop self_name reporter rest arg
        else ret VNone
      else chain_loop self_name reporter rest res
  end.

End Containers.

(** The comprehension of [Loop._process]:
    [[res for res in (node(arg, reporter) for arg in args) if res is not None]] *)
Fixpoint loop_each (run : value -> M value) (args : list value) : M (list value) :=
  match args with
  | [] => ret []
  | arg :: rest =>
      res <- run arg ;;
      out <- loop_each run rest ;;
      ret (if is_None res then out else res :: out)
  end.

(** [_process] of the synchronous classes. *)
Fixpoint process (self : BaseNode) (arg : value) (reporter : Reporter)
    {struct self} : M value :=
  match self with
  | Node func _ sev => try_report (apply_func func arg) sev arg reporter
  | Chain nodes _ nm _ =>
      chain_loop (BaseNode_call process) nm reporter nodes arg
  | Loop node _ _ _ =>
      args <- lift (iterate arg) ;;
      out <- loop_each (fun a => BaseNode_call process node a (Some reporter)) args ;;
      ret (VList out)
  | Model kind nodes _ _ _ =>
      convert kind
        (map (fun bn =>
                result <- BaseNode_call process (snd bn) arg
                            (Some (scoped reporter (fst bn))) ;;
                ret (keep (fst bn) result (severity (snd bn))))
             nodes)
  end.

(** [node(arg)] on a node of the synchronous classes. *)
Definition call (self : BaseNode) (arg : value) (reporter : option Reporter) : M value :=
  BaseNode_call process self arg reporter.

(** *** The [Async] classes *)

(** The same [__call__] on a node whose [_process] is a coroutine
    function: the call creates the reporter and returns the coroutine,
    which runs when it is awaited or scheduled. *)
Definition BaseNode_call_async (_process : BaseNode -> value -> Reporter -> M value)
    (self : BaseNode) (arg : value) (reporter : option Reporter) : M (M value) :=
  r <- new_Reporter (name_value (name self)) ;;
  ret (_process self arg r).

(** [await coroutine] *)
Definition await {A} (c : M (M A)) : M A := co <- c ;; co.

Definition each {A B} (f : A -> M B) : list A -> M (list B) :=
  fix go (l : list A) : M (list B) :=
    match l with
    | [] => ret []
    | a :: rest => b <- f a ;; bs <- go rest ;; ret (b :: bs)
    end.

(** [asyncio.create_task] and [asyncio.gather] belong to the event loop
    of the standard library.  Which task ends or fails first is settled
    by that loop and by where the callables suspend, not by this
    package; [_process] of the [Async] classes is therefore given over
    [gather], the awaiting of [asyncio.gather] on the tasks just
    created. *)
Section Async.

Variable gather : list (M value) -> M (list value).

(** [_process] of the [Async] classes, run to its end. *)
Fixpoint aprocess (self : BaseNode) (arg : value) (reporter : Reporter)
    {struct self} : M value :=
  match self with
  | Node func _ sev => try_report (await_func func arg) sev arg reporter
  | Chain nodes _ nm _ =>
      chain_loop (fun node a r => await (BaseNode_call_async aprocess node a r))
                 nm reporter nodes arg
  | Loop node _ _ _ =>
      args <- lift (iterate arg) ;;
      tasks <- each (fun a => BaseNode_call_async aprocess node a (Some reporter)) args ;;
      results <- gather tasks ;;
      ret (VList (filter (fun res => negb (is_None res)) results))
  | Model kind nodes _ _ _ =>
      tasks <- each (fun bn =>
                       task <- BaseNode_call_async aprocess (snd bn) arg
                                 (Some (scoped reporter (fst bn))) ;;
                       ret (fst bn, severity (snd bn), task))
                    nodes ;;
      match tasks with
      | [] => raise (ValueError "not enough values to unpack (expected 3, got 0)")
      | _ =>
          results <- gather (map snd tasks) ;;
          convert kind
            (map (fun tr => ret (keep (fst (fst (fst tr))) (snd tr) (snd (fst (fst tr)))))
                 (combine tasks results))
      end
  end.

(** [await node(arg)] on a node of the [Async] classes. *)
Definition acall (self : BaseNode) (arg : value) (reporter : option Reporter) : M value :=
  await (BaseNode_call_async aprocess self arg reporter).

End Async.

(** *** Promotion and building *)

Definition mapO {A B} (f : A -> outcome B) : list A -> outcome (list B) :=
  fix go (l : list A) : outcome (list B) :=
    match l with
    | [] => Ret []
    | a :: rest =>
        match f a with
        | Ret b => match go rest with
                   | Ret bs => Ret (b :: bs)
                   | Raise e => Raise e
                   end
        | Raise e => Raise e
        end
    end.

Definition abstract_AsyncModel : exn :=
  TypeError "Can't instantiate abstract class AsyncModel with abstract method convert".

(** [to_async]; the result is a node of the [Async] classes.  Every
    [Async] class inherits it from its synchronous base, which comes
    first in its method resolution order.  [Model.to_async] calls
    [AsyncModel], in which [convert] is still abstract. *)
Fixpoint to_async (self : BaseNode) : outcome BaseNode :=
  match self with
  | Node func nm _ => Ret (Node_init (asyncify func) nm)
  | Chain ns _ nm _ =>
      match mapO to_async ns with
      | Ret ns' => Ret (Chain_init ns' nm)
      | Raise e => Raise e
      end
  | Loop c _ _ _ =>
      match to_async c with
      | Ret c' => Ret (Loop_init c')
      | Raise e => Raise e
      end
  | Model _ ns _ _ _ =>
      match mapO (fun bn => match to_async (snd bn) with
                            | Ret n' => Ret (fst bn, n')
                            | Raise e => Raise e
                            end) ns with
      | Ret _ => Raise abstract_AsyncModel
      | Raise e => Raise e
      end
  end.

Inductive hierarchy : Type := Sync | Async.

(** What [build], [async_build] and [nd] are given. [COther] is an
    object that is no node, not callable, no list and no dict. *)
Inductive chainable : Type :=
| CNode (h : hierarchy) (n : BaseNode)
| CFunc (f : callable)
| CList (items : list chainable)
| CDict (items : list (value * chainable))
| COther (type_name : string).

Definition unsupported (type_name : string) : exn :=
  TypeError ("Unsupported type " ++ type_name ++ " for chaining")%string.

Definition unpack_empty : exn :=
  ValueError "not enough values to unpack (expected 2, got 0)".

(** [build]: in the branch of lists and dicts the model class and the
    unzipped branches and items are bound, then control reaches the
    [raise] at the end of the function. *)
Definition build (obj : chainable) : outcome BaseNode :=
  match obj with
  | CNode Async _ => Raise (TypeError "Cannot build a normal node from and async node")
  | CNode Sync n => Ret (copy n)
  | CFunc f =>
      if is_async f
      then Raise (TypeError "Cannot build a normal node from and async function")
      else Ret (Node_init f (get_name f))
  | CList items =>
      match items with
      | [] => Raise unpack_empty
      | _ => Raise (unsupported "list")
      end
  | CDict items =>
      match items with
      | [] => Raise unpack_empty
      | _ => Raise (unsupported "dict")
      end
  | COther ty => Raise (unsupported ty)
  end.

Fixpoint enumerate_from {A} (i : Z) (l : list A) : list (value * A) :=
  match l with
  | [] => []
  | a :: rest => (VInt i, a) :: enumerate_from (i + 1) rest
  end.

(** [async_build] *)
Fixpoint async_build (obj : chainable) : outcome BaseNode :=
  match obj with
  | CNode _ n => to_async n
  | CFunc f => Ret (Node_init (asyncify f) (get_name f))
  | CList items =>
      match mapO async_build items with
      | Ret ns => Ret (Model_init ListModel (enumerate_from 0 ns))
      | Raise e => Raise e
      end
  | CDict items =>
      match mapO (fun kv => match async_build (snd kv) with
                            | Ret n => Ret (fst kv, n)
                            | Raise e => Raise e
                            end) items with
      | Ret ns => Ret (Model_init DictModel ns)
      | Raise e => Raise e
      end
  | COther ty => Raise (unsupported ty)
  end.

(** [is_node_async]; a synchronous node is callable and [is_async] does
    not take it for a coroutine function; iterating a dict's [items()]
    meets tuples, which are no nodes, callables, lists or dicts. *)
Fixpoint is_node_async (obj : chainable) : bool :=
  match obj with
  | CNode Async _ => true
  | CNode Sync _ => false
  | CFunc f => is_async f
  | CList items => existsb is_node_async items
  | CDict _ => false
  | COther _ => false
  end.

(** [nd] *)
Definition nd (obj : option chainable) : outcome (hierarchy * BaseNode) :=
  match obj with
  | None => Ret (Sync, Chain_init [] None)
  | Some o =>
      if is_node_async o
      then match async_build o with
           | Ret n => Ret (Async, n)
           | Raise e => Raise e
           end
      else match build o with
           | Ret n => Ret (Sync, n)
           | Raise e => Raise e
           end
  end.

(** *** Operators *)

Definition chain_nodes (self : BaseNode) : list BaseNode :=
  match self with
  | Chain ns _ _ _ => ns
  | _ => []
  end.

(** [AsyncChain.__or__]; [self] is a chain of the [Async] classes. *)
Definition AsyncChain_or (self : BaseNode) (other : chainable) : outcome BaseNode :=
  match async_build other with
  | Ret n => Ret (Chain_init (chain_nodes self ++ [n]) (name self))
  | Raise e => Raise e
  end.

(** [AsyncChain.__mul__] *)
Definition AsyncChain_mul (self : BaseNode) (other : chainable) : outcome BaseNode :=
  match async_build other with
  | Ret n => Ret (Chain_init (chain_nodes self ++ [Loop_init n]) (name self))
  | Raise e => Raise e
  end.

(** [Chain.__or__]; [self] is a chain of the synchronous classes. *)
Definition Chain_or (self : BaseNode) (other : chainable) : outcome (hierarchy * BaseNode) :=
  if is_node_async other then
    match to_async self with
    | Ret aself =>
        match AsyncChain_or aself other with
        | Ret n => Ret (Async, n)
        | Raise e => Raise e
        end
    | Raise e => Raise e
    end
  else
    match build other with
    | Ret n => Ret (Sync, Chain_init (chain_nodes self ++ [n]) (name self))
    | Raise e => Raise e
    end.

(** [Chain.__mul__] *)
Definition Chain_mul (self : BaseNode) (other : chainable) : outcome (hierarchy * BaseNode) :=
  if is_node_async other then
    match to_async self with
    | Ret aself =>
        match AsyncChain_mul aself other with
        | Ret n => Ret (Async, n)
        | Raise e => Raise e
        end
    | Raise e => Raise e
    end
  else
    match build other with
    | Ret n => Ret (Sync, Chain_init (chain_nodes self ++ [Loop_init n]) (name self))
    | Raise e => Raise e
    end.

(** [BaseNode.__or__] and [BaseNode.__mul__] on a node of the
    synchronous classes that is no chain; [varname] is what
    [get_varname] of [_util] finds in the caller's frame. *)
Definition BaseNode_or (varname : option string) (self : BaseNode)
    (other : chainable) : outcome (hierarchy * BaseNode) :=
  Chain_or (Chain_init [self] varname) other.

Definition BaseNode_mul (varname : option string) (self : BaseNode)
    (other : chainable) : outcome (hierarchy * BaseNode) :=
  Chain_mul (Chain_init [self] varname) other.

End nodes.

(** ** chains.py *)

Module chains.

(** Modelled from the spec: the [Report] that [reporter.report(nodes,
    required)] finalizes, here the records of the reporter's root with
    the two arguments of the call. *)
Record Report : Type := {
  rep_records : list (Reporter * record);
  rep_nodes : list string;
  rep_required : nat
}.

(** A report handler returns or raises. *)
Definition ReportHandler : Type := Report -> option exn.

Record Chain : Type := {
  name : string;
  core : nodes.BaseNode;
  nodes : list string;
  total_nodes : nat;
  required_nodes : nat;
  report_handlers : bool -> list ReportHandler
}.

(** [Chain.__init__]: [len(nodes)] is taken of the default [None] too. *)
Definition Chain_init (core_ : nodes.BaseNode) (name_ : option string)
    (nodes_ : option (list string)) (required_ : nat) : outcome Chain :=
  match nodes_ with
  | None => Raise (TypeError "object of type 'NoneType' has no len()")
  | Some ns =>
      Ret {| name := match name_ with Some n => n | None => "unregistered" end;
             core := core_;
             nodes := ns;
             total_nodes := List.length ns;
             required_nodes := required_;
             report_handlers := fun _ => [] |}
  end.

Definition add_report_handler (self : Chain) (handler : ReportHandler)
    (always : bool) : Chain :=
  {| name := name self; core := core self; nodes := nodes self;
     total_nodes := total_nodes self; required_nodes := required_nodes self;
     report_handlers := fun success =>
       if success
       then (if always then report_handlers self true ++ [handler]
             else report_handlers self true)
       else report_handlers self false ++ [handler] |}.

Definition clear_report_handlers (self : Chain) : Chain :=
  {| name := name self; core := core self; nodes := nodes self;
     total_nodes := total_nodes self; required_nodes := required_nodes self;
     report_handlers := fun _ => [] |}.

(** [self.__report_handlers[success]] on the dict with the keys [True]
    and [False]. *)
Definition handlers_for (self : Chain) (success : value) : outcome (list ReportHandler) :=
  if hashable success then
    if key_eqb (VBool true) success then Ret (report_handlers self true)
    else if key_eqb (VBool false) success then Ret (report_handlers self false)
    else Raise (KeyError success)
  else Raise (TypeError "unhashable type").

Fixpoint run_handlers (handlers : list ReportHandler) (report : Report) : outcome unit :=
  match handlers with
  | [] => Ret tt
  | handler :: rest =>
      match handler report with
      | Some e => Raise e
      | None => run_handlers rest report
      end
  end.

Definition report (reporter : Reporter) (self : Chain) : M Report :=
  fun w => (Ret {| rep_records := received reporter w;
                   rep_nodes := nodes self;
                   rep_required := required_nodes self |}, w).

(** [Chain.__call__] *)
Definition Chain_call (self : Chain) (input : value) : M value :=
  reporter <- new_Reporter VNone ;;
  out <- nodes.call (core self) input (Some reporter) ;;
  sr <- lift (unpack2 out) ;;
  handlers <- lift (handlers_for self (fst sr)) ;;
  match handlers with
  | [] => ret (snd sr)
  | _ =>
      rep <- report reporter self ;;
      _ <- lift (run_handlers handlers rep) ;;
      ret (snd sr)
  end.

(** *** The registry *)

(** What a name of the registry maps to: a chain, or a nested namespace.
    A namespace is a dict from names to entries, kept in insertion
    order. *)
Inductive entry : Type :=
| Registered (chain : Chain)
| Namespace (reg : list (string * entry)).

Definition ChainRegistry : Type := list (string * entry).

(** [reg.get(key)] *)
Fixpoint dict_get (key : string) (reg : ChainRegistry) : option entry :=
  match reg with
  | [] => None
  | (k, e) :: rest => if String.eqb k key then Some e else dict_get key rest
  end.

(** [reg[key] = e] *)
Fixpoint dict_put (key : string) (e : entry) (reg : ChainRegistry) : ChainRegistry :=
  match reg with
  | [] => [(key, e)]
  | (k, e') :: rest =>
      if String.eqb k key then (k, e) :: rest else (k, e') :: dict_put key e rest
  end.

(** [_get_components] on a chain or a registry. *)
Fixpoint components (source : entry) : list Chain :=
  match source with
  | Registered chain => [chain]
  | Namespace reg => flat_map (fun kv => components (snd kv)) reg
  end.

(** [_get_components] *)
Definition _get_components (source : option entry) : list Chain :=
  match source with
  | None => []
  | Some e => components e
  end.

(** [name.split('.')] *)
Fixpoint split_dots (s : string) : list string :=
  match s with
  | EmptyString => [EmptyString]
  | String c rest =>
      if Ascii.eqb c "."%char then EmptyString :: split_dots rest
      else match split_dots rest with
           | first :: others => String c first :: others
           | [] => [String c EmptyString]
           end
  end.

Section Registry.

(** [repr] of a string, used in the message of the error. *)
Variable repr : string -> string.

Definition already_registered (names : list string) : exn :=
  ValueError ("The name " ++ repr (String.concat "." names)
              ++ " is already registered")%string.

(** The loop of [_register] from position [length before] on, in the
    namespace [reg] that the names [before] lead to; it returns the
    namespace as the loop leaves it, with the error it raised if any. *)
Fixpoint register_loop (before names : list string) (chain : Chain)
    (reg : ChainRegistry) : option exn * ChainRegistry :=
  match names with
  | [] => (None, reg)
  | name_part :: rest =>
      let last := match rest with [] => true | _ => false end in
      match dict_get name_part reg with
      | Some (Registered _) =>
          (Some (already_registered (before ++ [name_part])), reg)
      | Some (Namespace sub) =>
          if last then (Some (already_registered (before ++ [name_part])), reg)
          else
            let (r, sub') := register_loop (before ++ [name_part]) rest chain sub in
            (r, dict_put name_part (Namespace sub') reg)
      | None =>
          if last then (None, dict_put name_part (Registered chain) reg)
          else
            let (r, sub') := register_loop (before ++ [name_part]) rest chain [] in
            (r, dict_put name_part (Namespace sub') reg)
      end
  end.

(** [_register(names, chain)] on the registry [_registry_]. *)
Definition _register (names : list string) (chain : Chain)
    (_registry_ : ChainRegistry) : option exn * ChainRegistry :=
  register_loop [] names chain _registry_.

End Registry.

(** The loop of [get] and its final [_get_components(target)]. *)
Fixpoint get_loop (names : list string) (target : ChainRegistry) : list Chain :=
  match names with
  | [] => _get_components (Some (Namespace target))
  | name_part :: rest =>
      match dict_get name_part target with
      | Some (Namespace sub) => get_loop rest sub
      | Some (Registered chain) =>
          match rest with
          | [] => _get_components (Some (Registered chain))
          | _ => []
          end
      | None =>
          match rest with
          | [] => _get_components None
          | _ => []
          end
      end
  end.

(** [get(name)] on the registry [_registry_]. *)
Definition get (name : value) (_registry_ : ChainRegistry) : outcome (list Chain) :=
  match name with
  | VNone => Ret (get_loop [] _registry_)
  | VStr s => Ret (get_loop (split_dots s) _registry_)
  | _ => Raise (TypeError "The name must be str")
  end.

End chains.

Import nodes.

(** * Specifications *)

(** The algorithm of a chain in the words of the specification: the
    children run in declared order, each on the output of the one before;
    an absent result of an OPTIONAL child is seen through, an absent
    result of a NORMAL or REQUIRED child ends the chain in the world that
    child left, and the last value is returned when all children
    completed.  [chain_spec nm r children current w out w'] reads: from
    [current] in world [w] the chain returns [out] in world [w']. *)
Inductive chain_spec (self_name : option string) (reporter : Reporter) :
    list BaseNode -> value -> world -> value -> world -> Prop :=
| chain_done current w :
    chain_spec self_name reporter [] current w current w
| chain_next child rest current w result w' out w'' :
    call child current (Some (scoped reporter (name_value self_name))) w
      = (Ret result, w') ->
    result <> VNone ->
    chain_spec self_name reporter rest result w' out w'' ->
    chain_spec self_name reporter (child :: rest) current w out w''
| chain_skip child rest current w w' out w'' :
    call child current (Some (scoped reporter (name_value self_name))) w
      = (Ret VNone, w') ->
    severity child = OPTIONAL ->
    chain_spec self_name reporter rest current w' out w'' ->
    chain_spec self_name reporter (child :: rest) current w out w''
| chain_abort child rest current w w' :
    call child current (Some (scoped reporter (name_value self_name))) w
      = (Ret VNone, w') ->
    severity child = NORMAL \/ severity child = REQUIRED ->
    chain_spec self_name reporter (child :: rest) current w VNone w'.

(** The world after the call of a leaf named [nm] that recorded [rc]. *)
Definition after_leaf (f : callable) (nm : string) (arg : value)
    (rc : record) (w : world) : world :=
  {| roots := S (roots w);
     log := log w ++ [({| rp_root := roots w; rp_scope := [VStr nm] |}, rc)];
     calls := calls w ++ [(fn_name f, arg)] |}.

Definition present (res : value) : bool := negb (is_None res).

(** One evaluation of the child per element, in element order, all
    against the same reporter; [results] holds what each evaluation
    returned, absent results included. *)
Inductive loop_spec (node : BaseNode) (reporter : Reporter) :
    list value -> world -> list value -> world -> Prop :=
| loop_done w : loop_spec node reporter [] w [] w
| loop_step arg rest w res w' results w'' :
    call node arg (Some reporter) w = (Ret res, w') ->
    loop_spec node reporter rest w' results w'' ->
    loop_spec node reporter (arg :: rest) w (res :: results) w''.

(** Every branch's child is applied to the same input under the
    reporter scoped by its branch; [outs] holds for each branch, in
    declared order, its key, what the child returned (absent results
    included) and the child's severity. *)
Inductive model_spec (arg : value) (reporter : Reporter) :
    list (value * BaseNode) -> world ->
    list (value * value * Severity) -> world -> Prop :=
| model_done w : model_spec arg reporter [] w [] w
| model_branch branch node rest w result w' outs w'' :
    call node arg (Some (scoped reporter branch)) w = (Ret result, w') ->
    model_spec arg reporter rest w' outs w'' ->
    model_spec arg reporter ((branch, node) :: rest) w
      ((branch, result, severity node) :: outs) w''.

(** The branches that reach the conversion: all but those whose result
    is absent and whose severity is OPTIONAL. *)
Fixpoint surviving (outs : list (value * value * Severity)) : list (value * value) :=
  match outs with
  | [] => []
  | (branch, result, sev) :: rest =>
      if is_None result && is_OPTIONAL sev then surviving rest
      else (branch, result) :: surviving rest
  end.

Definition as_dict (acc pairs : list (value * value)) : list (value * value) :=
  fold_left (fun d br => dict_set (fst br) (snd br) d) pairs acc.

(** The sequence, or the mapping, of the pairs given to the conversion. *)
Definition conversion (kind : model_kind) (pairs : list (value * value)) : value :=
  match kind with
  | ListModel => VList (map snd pairs)
  | DictModel => VDict (as_dict [] pairs)
  end.

Definition branch_step (arg : value) (reporter : Reporter)
    (bn : value * BaseNode) : M (option (value * value)) :=
  result <- call (snd bn) arg (Some (scoped reporter (fst bn))) ;;
  ret (keep (fst bn) result (severity (snd bn))).

(** The number of leaves of a tree. *)
Fixpoint leaves (n : BaseNode) : nat :=
  match n with
  | Node _ _ _ => 1
  | Chain ns _ _ _ => list_sum (map leaves ns)
  | Loop c _ _ _ => leaves c
  | Model _ ns _ _ _ => list_sum (map (fun bn => leaves (snd bn)) ns)
  end.

(** The invariant: in every container of the tree the stored size is
    the sum of the sizes of the children. *)
Fixpoint size_ok (n : BaseNode) : bool :=
  match n with
  | Node _ _ _ => true
  | Chain ns l _ _ =>
      Nat.eqb l (list_sum (map len ns)) && forallb size_ok ns
  | Loop c l _ _ => Nat.eqb l (len c) && size_ok c
  | Model _ ns l _ _ =>
      Nat.eqb l (list_sum (map (fun bn => len (snd bn)) ns))
      && forallb (fun bn => size_ok (snd bn)) ns
  end.

Definition children (n : BaseNode) : list BaseNode :=
  match n with
  | Node _ _ _ => []
  | Chain ns _ _ _ => ns
  | Loop c _ _ _ => [c]
  | Model _ ns _ _ _ => map snd ns
  end.

(** * Example callables, trees and worlds *)

(** A callable that raises on every input. *)
Definition failing : callable :=
  {| fn_name := "failing"; fn_async := false;
     fn_body := fun _ => Raise (UserException "ZeroDivisionError") |}.

Definition failing_chain : chains.Chain :=
  {| chains.name := "unregistered";
     chains.core := Node_init failing "failing";
     chains.nodes := ["failing"%string];
     chains.total_nodes := 1;
     chains.required_nodes := 1;
     chains.report_handlers := fun _ => [] |}.

Definition world_failing_chain : world :=
  {| roots := 2;
     log := [({| rp_root := 1; rp_scope := [VStr "failing"] |},
              failure (UserException "ZeroDivisionError") NORMAL (VInt 1))];
     calls := [("failing"%string, VInt 1)] |}.

Definition double : callable :=
  {| fn_name := "double"; fn_async := false;
     fn_body := fun v => match v with
                         | VInt z => Ret (VInt (2 * z))
                         | _ => Raise (TypeError "unsupported operand")
                         end |}.

Definition identity : callable :=
  {| fn_name := "identity"; fn_async := false; fn_body := fun v => Ret v |}.

Definition root0 : Reporter := {| rp_root := 0; rp_scope := [VNone] |}.
Definition world1 : world := {| roots := 1; log := []; calls := [] |}.

Definition short_circuit : list BaseNode :=
  [Node_init failing "failing"; Node_init double "double"].

Definition world_short_circuit : world :=
  after_leaf failing "failing" (VInt 1)
    (failure (UserException "ZeroDivisionError") NORMAL (VInt 1)) world1.

Definition odd_only : callable :=
  {| fn_name := "odd_only"; fn_async := false;
     fn_body := fun v => match v with
                         | VInt z => if Z.odd z then Ret (VInt (10 * z))
                                     else Raise (ValueError "even")
                         | _ => Raise (TypeError "not an int")
                         end |}.

Definition loop_input : list value := [VInt 1; VInt 2; VInt 3].

Definition world_loop : world :=
  Eval vm_compute in
    snd (process (Loop_init (required (Node_init odd_only "odd_only")))
           (VList loop_input) root0 world1).




(** A callable that returns [None] on every input, without failing. *)
Definition returns_None : callable :=
  {| fn_name := "returns_None"; fn_async := false; fn_body := fun _ => Ret VNone |}.

(** A callable that returns the falsy value [0]. *)
Definition returns_zero : callable :=
  {| fn_name := "returns_zero"; fn_async := false; fn_body := fun _ => Ret (VInt 0) |}.

Section BaseNode_induction.
Variable P : BaseNode -> Prop.
Hypothesis HNode : forall f nm s, P (Node f nm s).
Hypothesis HChain : forall ns l nm s, Forall P ns -> P (Chain ns l nm s).
Hypothesis HLoop : forall c l nm s, P c -> P (Loop c l nm s).
Hypothesis HModel :
  forall k ns l nm s, Forall (fun bn => P (snd bn)) ns -> P (Model k ns l nm s).

Fixpoint BaseNode_ind' (n : BaseNode) : P n :=
  match n with
  | Node f nm s => HNode f nm s
  | Chain ns l nm s =>
      HChain ns l nm s
        ((fix go (ns : list BaseNode) : Forall P ns :=
            match ns with
            | [] => Forall_nil P
            | x :: rest => Forall_cons x (BaseNode_ind' x) (go rest)
            end) ns)
  | Loop c l nm s => HLoop c l nm s (BaseNode_ind' c)
  | Model k ns l nm s =>
      HModel k ns l nm s
        ((fix go (ns : list (value * BaseNode)) : Forall (fun bn => P (snd bn)) ns :=
            match ns with
            | [] => Forall_nil _
            | bn :: rest => Forall_cons bn (BaseNode_ind' (snd bn)) (go rest)
            end) ns)
  end.
End BaseNode_induction.

Definition sized_tree : BaseNode :=
  Chain_init [Node_init double "double";
              Loop_init (Chain_init [Node_init identity "a";
                                     optional (Node_init failing "failing")]
                           (Some "inner"%string))]
             (Some "outer"%string).

Definition pipeline : BaseNode :=
  Chain_init [Node_init double "double"; Node_init failing "failing"]
             (Some "pipeline"%string).

Definition pipeline_root : Reporter :=
  {| rp_root := 0; rp_scope := [VStr "pipeline"] |}.

Definition optional_leaf : BaseNode := optional (Node_init double "double").

(** * Further specifications *)

(** A callable of a synchronous leaf that raises nothing outside
    [Exception]. *)
Definition well_behaved (f : callable) : Prop :=
  fn_async f = false /\
  forall a e, fn_body f a = Raise e -> is_Exception e = true.

(** A tree of well-behaved leaves, chains and models with hashable
    branches, without loops. *)
Fixpoint calm (n : BaseNode) : Prop :=
  match n with
  | Node f _ _ => well_behaved f
  | Chain ns _ _ _ =>
      (fix all (l : list BaseNode) : Prop :=
         match l with
         | [] => True
         | x :: rest => calm x /\ all rest
         end) ns
  | Loop _ _ _ _ => False
  | Model _ ns _ _ _ =>
      (fix all (l : list (value * BaseNode)) : Prop :=
         match l with
         | [] => True
         | bn :: rest => (hashable (fst bn) = true /\ calm (snd bn)) /\ all rest
         end) ns
  end.

(** No model in the tree. *)
Fixpoint model_free (n : BaseNode) : bool :=
  match n with
  | Node _ _ _ => true
  | Chain ns _ _ _ => forallb model_free ns
  | Loop c _ _ _ => model_free c
  | Model _ _ _ _ _ => false
  end.

(** Every node of the tree has the severity [NORMAL]. *)
Fixpoint all_normal (n : BaseNode) : bool :=
  match n with
  | Node _ _ s => match s with NORMAL => true | _ => false end
  | Chain ns _ _ s =>
      match s with NORMAL => forallb all_normal ns | _ => false end
  | Loop c _ _ s =>
      match s with NORMAL => all_normal c | _ => false end
  | Model _ ns _ _ s =>
      match s with NORMAL => forallb (fun bn => all_normal (snd bn)) ns | _ => false end
  end.

(** After a part of a chain returned [v]: an absent result ends the
    chain, any other value goes on into [next]. *)
Definition and_then (first : M value) (next : value -> M value) : M value :=
  v <- first ;; if is_None v then ret VNone else next v.

(** [_process] of the node returns, whatever the input and the world. *)
Definition returns (n : BaseNode) : Prop :=
  forall arg reporter w, exists v w', process n arg reporter w = (Ret v, w').

(** A tree of leaves, chains and loops whose leaves wrap plain functions
    and in whose chains no child is OPTIONAL. *)
Fixpoint plain (n : BaseNode) : bool :=
  match n with
  | Node f _ _ => negb (fn_async f)
  | Chain ns _ _ _ =>
      forallb (fun c => negb (is_OPTIONAL (severity c)) && plain c) ns
  | Loop c _ _ _ => plain c
  | Model _ _ _ _ _ => false
  end.

(** The concurrent outcome [o'] agrees with the synchronous outcome [o]:
    the same value when [o] is a value, an error when [o] is an error. *)
Definition agree (o o' : outcome value) : Prop :=
  match o with
  | Ret v => o' = Ret v
  | Raise _ => exists e, o' = Raise e
  end.

(** What [asyncio.gather] promises under every schedule.  When every
    task returns, it returns their results in the order of the tasks. *)
Definition gather_returns (gather : list (M value) -> M (list value)) : Prop :=
  forall tasks results,
    Forall2 (fun t r => forall w, fst (t w) = Ret r) tasks results ->
    forall w, fst (gather tasks w) = Ret results.

(** When a task raises, it raises: the error of the task that failed
    first, whichever the schedule makes it. *)
Definition gather_raises (gather : list (M value) -> M (list value)) : Prop :=
  forall tasks,
    Exists (fun t => forall w, exists e, fst (t w) = Raise e) tasks ->
    forall w, exists e, fst (gather tasks w) = Raise e.

(** What the synchronous tree [n] returns or raises depends on the input
    alone, not on the reporter nor on the world it runs in, and the
    concurrent tree [n'] agrees with it under [gather]. *)
Definition same_output (gather : list (M value) -> M (list value))
    (n n' : BaseNode) : Prop :=
  exists F : value -> outcome value,
    (forall a r w, fst (process n a r w) = F a) /\
    (forall a r w, agree (F a) (fst (aprocess gather n' a r w))).

(** The results of a list of outcomes, or the first error in it. *)
Fixpoint collect {A} (os : list (outcome A)) : outcome (list A) :=
  match os with
  | [] => Ret []
  | Raise e :: _ => Raise e
  | Ret a :: rest =>
      match collect rest with
      | Ret l => Ret (a :: l)
      | Raise e => Raise e
      end
  end.

(** What a loop returns when its child returns [F] on each element. *)
Definition loop_output (F : value -> outcome value) (a : value) : outcome value :=
  match iterate a with
  | Ret xs =>
      match collect (map F xs) with
      | Ret results => Ret (VList (filter present results))
      | Raise e => Raise e
      end
  | Raise e => Raise e
  end.

(** What the call of a leaf returns: the output of its callable, the
    absent result when the callable fails. *)
Definition leaf_output (f : callable) (arg : value) : value :=
  match fn_body f arg with
  | Ret v => v
  | Raise _ => VNone
  end.

(** ** Further examples *)

(** A callable whose outputs are all falsy: [None] on [0], [0] on any
    other int, the empty string on a string, [False] on a bool; it fails
    on anything else. *)
Definition falsy : callable :=
  {| fn_name := "falsy"; fn_async := false;
     fn_body := fun v => match v with
                         | VInt 0 => Ret VNone
                         | VInt _ => Ret (VInt 0)
                         | VStr _ => Ret (VStr "")
                         | VBool _ => Ret (VBool false)
                         | _ => Raise (TypeError "unsupported operand")
                         end |}.

Definition quote (s : string) : string := ("'" ++ s ++ "'")%string.

Definition doubling_chain : chains.Chain :=
  {| chains.name := "doubling";
     chains.core := Node_init double "double";
     chains.nodes := ["double"%string];
     chains.total_nodes := 1;
     chains.required_nodes := 1;
     chains.report_handlers := fun _ => [] |}.

Definition registry_ab : chains.ChainRegistry :=
  [("a"%string, chains.Namespace [("b"%string, chains.Registered failing_chain)])].

Definition registry_abc : chains.ChainRegistry :=
  [("a"%string,
    chains.Namespace [("b"%string, chains.Registered failing_chain);
                      ("c"%string, chains.Registered doubling_chain)])].

Definition doubling : BaseNode := Chain_init [Node_init double "double"] None.

Definition calm_tree : BaseNode :=
  Chain_init [Node_init double "double";
              Model_init DictModel
                [(VStr "twice", Node_init double "double");
                 (VStr "never", optional (Node_init failing "failing"))]]
             None.

Definition two_branches : list (value * BaseNode) :=
  [(VInt 0, Node_init double "double");
   (VInt 1, required (Node_init failing "failing"))].

Definition two_outs : list (value * value * Severity) :=
  [(VInt 0, VInt 2, NORMAL); (VInt 1, VNone, REQUIRED)].

Definition world_two_branches : world :=
  Eval vm_compute in
    snd (process (Model_init ListModel two_branches) (VInt 1) root0 world1).

(** One event loop, for the instances below: each task runs to its end
    when its turn comes, in the order of creation, and the awaiting
    receives the first error in that order.  This is what happens under
    [asyncio] when no task suspends, as in a loop whose child holds no
    loop nor model and whose callables were made coroutine functions by
    [asyncify]; it is no model of the event loop in general. *)
Fixpoint run_in_turn (tasks : list (M value)) : world -> list (outcome value) * world :=
  fun w =>
    match tasks with
    | [] => ([], w)
    | t :: rest =>
        let (o, w') := t w in
        let (os, w'') := run_in_turn rest w' in
        (o :: os, w'')
    end.

Definition gather_in_turn (tasks : list (M value)) : M (list value) :=
  fun w => let (os, w') := run_in_turn tasks w in (collect os, w').

Definition plain_tree : BaseNode :=
  Chain_init [Loop_init (Chain_init [required (Node_init odd_only "odd_only");
                                     Node_init double "double"] None);
              Node_init identity "identity"] None.

Definition plain_tree_async : BaseNode :=
  Chain_init [Loop_init (Chain_init [Node_init (asyncify odd_only) "odd_only";
                                     Node_init (asyncify double) "double"] None);
              Node_init (asyncify identity) "identity"] None.

(** A callable that returns the pair of a success flag and a result, the
    shape that the chain object unpacks. *)
Definition flagged : callable :=
  {| fn_name := "flagged"; fn_async := false;
     fn_body := fun v => Ret (VTuple [VBool false; v]) |}.

Definition flagged_chain : chains.Chain :=
  {| chains.name := "flagged";
     chains.core := Node_init flagged "flagged";
     chains.nodes := ["flagged"%string];
     chains.total_nodes := 1;
     chains.required_nodes := 1;
     chains.report_handlers := fun _ => [] |}.

(** A handler that raises. *)
Definition alarm : chains.ReportHandler :=
  fun _ => Some (UserException "Alarm").

Definition world_flagged : world :=
  Eval vm_compute in
    snd (call (Node_init flagged "flagged") (VInt 4) None
           (snd (new_Reporter VNone world0))).

(** * Properties *)

(** ** Generalities *)

Lemma is_None_true (v : value) : is_None v = true <-> v = VNone.
Proof. destruct v; simpl; split; intro H; congruence. Qed.

Lemma is_None_false (v : value) : is_None v = false <-> v <> VNone.
Proof. destruct v; simpl; split; intro H; congruence. Qed.

Lemma is_OPTIONAL_true (s : Severity) : is_OPTIONAL s = true <-> s = OPTIONAL.
Proof. destruct s; simpl; split; intro H; congruence. Qed.

Lemma is_OPTIONAL_false (s : Severity) :
  is_OPTIONAL s = false <-> (s = NORMAL \/ s = REQUIRED).
Proof.
  destruct s; simpl; split; intro H; auto; try congruence;
    destruct H; congruence.
Qed.

Lemma bind_Ret {A B} (m : M A) (k : A -> M B) (w w' : world) (a : A) :
  m w = (Ret a, w') -> bind m k w = k a w'.
Proof. intro H. unfold bind. rewrite H. reflexivity. Qed.

Lemma bind_Raise {A B} (m : M A) (k : A -> M B) (w w' : world) (e : exn) :
  m w = (Raise e, w') -> bind m k w = (Raise e, w').
Proof. intro H. unfold bind. rewrite H. reflexivity. Qed.

Lemma process_Chain nodes l nm s arg reporter :
  process (Chain nodes l nm s) arg reporter
  = chain_loop call nm reporter nodes arg.
Proof. reflexivity. Qed.

Lemma chain_loop_cons (f : BaseNode -> value -> option Reporter -> M value)
    nm reporter node rest arg :
  chain_loop f nm reporter (node :: rest) arg
  = (res <- f node arg (Some (scoped reporter (name_value nm))) ;;
     if is_None res then
       if is_OPTIONAL (severity node)
       then chain_loop f nm reporter rest arg
       else ret VNone
     else chain_loop f nm reporter rest res).
Proof. reflexivity. Qed.

(** ** The chain object *)

(** C1. The chain object unpacks what its core returns into
    [success, result].  A node's call returns its bare result, so when
    the core's result is absent, as it is after a leaf caught and
    reported the error of its callable, the chain object raises a
    [TypeError] instead of returning the absent result.  The world it
    leaves is the one the core left: the failure was reported. *)
Theorem C1_chain_call_raises_after_callable_failure :
  forall (c : chains.Chain) (input : value) (w w' : world),
    call (chains.core c) input None (snd (new_Reporter VNone w)) = (Ret VNone, w') ->
    chains.Chain_call c input w
      = (Raise (TypeError "cannot unpack non-iterable object"), w').
Proof.
  intros c input w w' H.
  unfold chains.Chain_call.
  unfold bind at 1. unfold new_Reporter at 1.
  change (call (chains.core c) input
            (Some {| rp_root := roots w; rp_scope := [VNone] |}))
    with (call (chains.core c) input None).
  unfold new_Reporter in H. simpl snd in H.
  rewrite (bind_Ret _ _ _ _ _ H). reflexivity.
Qed.

Lemma C1_chain_call_raises_after_callable_failure_witness :
  chains.Chain_init (Node_init failing "failing") None (Some ["failing"%string]) 1
    = Ret failing_chain /\
  call (chains.core failing_chain) (VInt 1) None (snd (new_Reporter VNone world0))
    = (Ret VNone, world_failing_chain) /\
  map snd (log world_failing_chain)
    = [failure (UserException "ZeroDivisionError") NORMAL (VInt 1)] /\
  chains.Chain_call failing_chain (VInt 1) world0
    = (Raise (TypeError "cannot unpack non-iterable object"), world_failing_chain).
Proof.
  assert (H : call (chains.core failing_chain) (VInt 1) None
                (snd (new_Reporter VNone world0))
              = (Ret VNone, world_failing_chain)) by reflexivity.
  split; [reflexivity|]. split; [exact H|]. split; [reflexivity|].
  exact (C1_chain_call_raises_after_callable_failure failing_chain (VInt 1)
           world0 world_failing_chain H).
Defined.

(** ** Chain *)

Lemma chain_loop_sound nm reporter nodes :
  forall arg w out w',
    chain_spec nm reporter nodes arg w out w' ->
    chain_loop call nm reporter nodes arg w = (Ret out, w').
Proof.
  intros arg w out w' H.
  induction H as [current w
                 | child rest current w result w' out w'' Hc Hr _ IH
                 | child rest current w w' out w'' Hc Hs _ IH
                 | child rest current w w' Hc Hs].
  - reflexivity.
  - rewrite chain_loop_cons, (bind_Ret _ _ _ _ _ Hc).
    apply is_None_false in Hr. rewrite Hr. exact IH.
  - rewrite chain_loop_cons, (bind_Ret _ _ _ _ _ Hc). simpl.
    apply is_OPTIONAL_true in Hs. rewrite Hs. exact IH.
  - rewrite chain_loop_cons, (bind_Ret _ _ _ _ _ Hc). simpl.
    apply is_OPTIONAL_false in Hs. rewrite Hs. reflexivity.
Qed.

Lemma chain_loop_complete nm reporter nodes :
  forall arg w out w',
    chain_loop call nm reporter nodes arg w = (Ret out, w') ->
    chain_spec nm reporter nodes arg w out w'.
Proof.
  induction nodes as [|child rest IH]; intros arg w out w' H.
  - inversion H; subst. constructor.
  - rewrite chain_loop_cons in H. unfold bind in H.
    destruct (call child arg (Some (scoped reporter (name_value nm))) w)
      as [[res|e] w1] eqn:Hc; [|discriminate].
    destruct (is_None res) eqn:Hn.
    + apply is_None_true in Hn. subst res.
      destruct (is_OPTIONAL (severity child)) eqn:Hs.
      * apply is_OPTIONAL_true in Hs.
        eapply chain_skip; eauto.
      * apply is_OPTIONAL_false in Hs.
        inversion H; subst. eapply chain_abort; eauto.
    + apply is_None_false in Hn.
      eapply chain_next; eauto.
Qed.

(** C2. A chain node returns [out] in world [w'] exactly when the
    algorithm of the specification does: children in declared order, each
    output threaded into the next child, an absent result of an OPTIONAL
    child skipped with the prior value kept, an absent result of a NORMAL
    or REQUIRED child returned at once as the chain's absent result in
    the world that child left (no later child is called), and the final
    value returned when every child completed. *)
Theorem C2_chain_process_follows_spec :
  forall nodes l nm s arg reporter w out w',
    chain_spec nm reporter nodes arg w out w' <->
    process (Chain nodes l nm s) arg reporter w = (Ret out, w').
Proof.
  intros. rewrite process_Chain. split.
  - apply chain_loop_sound.
  - apply chain_loop_complete.
Qed.

(** *** Leaves under a call *)

Lemma leaf_call_returns f nm s arg v given w :
  fn_async f = false ->
  fn_body f arg = Ret v ->
  call (Node f nm s) arg given w = (Ret v, after_leaf f nm arg (success arg v) w).
Proof.
  intros Ha Hb.
  unfold call, BaseNode_call, bind, new_Reporter; simpl.
  unfold try_report, apply_func, bind, called, lift. rewrite Ha, Hb.
  reflexivity.
Qed.

Lemma leaf_call_fails f nm s arg e given w :
  fn_async f = false ->
  fn_body f arg = Raise e ->
  is_Exception e = true ->
  call (Node f nm s) arg given w
  = (Ret VNone, after_leaf f nm arg (failure e s arg) w).
Proof.
  intros Ha Hb He.
  unfold call, BaseNode_call, bind, new_Reporter; simpl.
  unfold try_report, apply_func, bind, called, lift. rewrite Ha, Hb, He.
  reflexivity.
Qed.

(** *** The laws of the specification on a chain *)

Lemma C2_chain_process_follows_spec_witness :
  chain_spec None root0 short_circuit (VInt 1) world1 VNone world_short_circuit /\
  process (Chain_init short_circuit None) (VInt 1) root0 world1
    = (Ret VNone, world_short_circuit).
Proof.
  assert (H : chain_spec None root0 short_circuit (VInt 1) world1 VNone
                world_short_circuit).
  { apply chain_abort; [reflexivity | left; reflexivity]. }
  split; [exact H|].
  apply (proj1 (C2_chain_process_follows_spec short_circuit _ None NORMAL
                  (VInt 1) root0 world1 VNone world_short_circuit)).
  exact H.
Defined.

Example short_circuit_law :
  let (out, w) := call (Chain_init short_circuit None) (VInt 1) None world0 in
  out = Ret VNone /\ calls w = [("failing"%string, VInt 1)].
Proof. vm_compute. split; reflexivity. Qed.

Example optional_skip_law :
  let (out, w) := call (Chain_init [optional (Node_init failing "failing");
                                   Node_init double "double"] None)
                    (VInt 1) None world0 in
  out = Ret (VInt 2) /\
  calls w = [("failing"%string, VInt 1); ("double"%string, VInt 1)].
Proof. vm_compute. split; reflexivity. Qed.

Example identity_law (v : value) (w : world) :
  fst (call (Chain_init [Node_init identity "a"; Node_init identity "b";
                         Node_init identity "c"] None)
         v None w) = Ret v.
Proof. destruct v; reflexivity. Qed.

Example empty_chain_is_identity (v : value) (w : world) :
  call (Chain_init [] None) v None w
  = (Ret v, {| roots := S (roots w); log := log w; calls := calls w |}).
Proof. reflexivity. Qed.

(** ** Loop *)

Lemma loop_spec_length node reporter elems w results w' :
  loop_spec node reporter elems w results w' ->
  List.length results = List.length elems.
Proof. induction 1; simpl; congruence. Qed.

Lemma loop_each_spec node reporter elems w results w' :
  loop_spec node reporter elems w results w' ->
  loop_each (fun a => call node a (Some reporter)) elems w
  = (Ret (filter present results), w').
Proof.
  induction 1 as [w | arg rest w res w' results w'' Hc _ IH].
  - reflexivity.
  - simpl loop_each. rewrite (bind_Ret _ _ _ _ _ Hc), (bind_Ret _ _ _ _ _ IH).
    unfold ret, present. simpl. destruct (is_None res); reflexivity.
Qed.

Lemma loop_each_raises node reporter pre x rest w results w1 e w2 :
  loop_spec node reporter pre w results w1 ->
  call node x (Some reporter) w1 = (Raise e, w2) ->
  loop_each (fun a => call node a (Some reporter)) (pre ++ x :: rest) w
  = (Raise e, w2).
Proof.
  induction 1 as [w | arg pre w res w' results w'' Hc _ IH]; intro Hx.
  - simpl. rewrite (bind_Raise _ _ _ _ _ Hx). reflexivity.
  - rewrite <- app_comm_cons. simpl loop_each.
    rewrite (bind_Ret _ _ _ _ _ Hc), (bind_Raise _ _ _ _ _ (IH Hx)).
    reflexivity.
Qed.

(** The evaluations of a loop either all return, or there is a first
    element on which the child raises. *)
Lemma loop_returns_or_raises node reporter elems :
  forall w,
    (exists results w', loop_spec node reporter elems w results w') \/
    (exists pre x rest results w1 e w2,
        elems = pre ++ x :: rest /\
        loop_spec node reporter pre w results w1 /\
        call node x (Some reporter) w1 = (Raise e, w2)).
Proof.
  induction elems as [|a rest IH]; intro w.
  - left. exists [], w. constructor.
  - destruct (call node a (Some reporter) w) as [[res|e] w1] eqn:Hc.
    + destruct (IH w1) as [[results [w' H]] |
                           [pre [x [post [results [w2 [e [w3 [He [Hl Hx]]]]]]]]]].
      * left. exists (res :: results), w'. econstructor; eassumption.
      * right. exists (a :: pre), x, post, (res :: results), w2, e, w3.
        subst rest. split; [reflexivity|]. split; [|exact Hx].
        econstructor; eassumption.
    + right. exists [], a, rest, [], w, e, w1.
      split; [reflexivity|]. split; [constructor | exact Hc].
Qed.

Lemma process_Loop_returns node l nm s args reporter elems w results w' :
  iterate args = Ret elems ->
  loop_spec node reporter elems w results w' ->
  process (Loop node l nm s) args reporter w
  = (Ret (VList (filter present results)), w').
Proof.
  intros Hi Hl. simpl process. unfold lift at 1, bind at 1. rewrite Hi.
  change (fun a => BaseNode_call process node a (Some reporter))
    with (fun a => call node a (Some reporter)).
  rewrite (bind_Ret _ _ _ _ _ (loop_each_spec _ _ _ _ _ _ Hl)).
  reflexivity.
Qed.

Lemma process_Loop_raises node l nm s args reporter pre x rest w results w1 e w2 :
  iterate args = Ret (pre ++ x :: rest) ->
  loop_spec node reporter pre w results w1 ->
  call node x (Some reporter) w1 = (Raise e, w2) ->
  process (Loop node l nm s) args reporter w = (Raise e, w2).
Proof.
  intros Hi Hl Hx. simpl process. unfold lift at 1, bind at 1. rewrite Hi.
  change (fun a => BaseNode_call process node a (Some reporter))
    with (fun a => call node a (Some reporter)).
  rewrite (bind_Raise _ _ _ _ _ (loop_each_raises _ _ _ _ rest _ _ _ _ _ Hl Hx)).
  reflexivity.
Qed.

Lemma filter_present_In results v :
  In v (filter present results) <-> In v results /\ v <> VNone.
Proof.
  rewrite filter_In. unfold present. rewrite negb_true_iff, is_None_false.
  reflexivity.
Qed.

Lemma filter_present_all results :
  Forall (fun v => v <> VNone) results -> filter present results = results.
Proof.
  induction 1 as [|v rest Hv _ IH]; simpl; [reflexivity|].
  apply is_None_false in Hv. unfold present at 1. rewrite Hv. simpl.
  rewrite IH. reflexivity.
Qed.

Lemma filter_present_none results :
  Forall (fun v => v = VNone) results -> filter present results = [].
Proof.
  induction 1 as [|v rest Hv _ IH]; simpl; [reflexivity|].
  subst v. exact IH.
Qed.

(** What the call of a leaf returns on each element, in closed form. *)
Lemma loop_spec_on_leaf f nm s reporter :
  well_behaved f ->
  forall elems w, exists w',
    loop_spec (Node f nm s) reporter elems w (map (leaf_output f) elems) w'.
Proof.
  intros [Ha He] elems.
  induction elems as [|a rest IH]; intro w.
  - exists w. constructor.
  - simpl map. destruct (fn_body f a) as [v|e] eqn:Hb.
    + destruct (IH (after_leaf f nm a (success a v) w)) as [w' H].
      exists w'.
      replace (leaf_output f a) with v by (unfold leaf_output; rewrite Hb; reflexivity).
      econstructor; [|exact H]. apply leaf_call_returns; assumption.
    + destruct (IH (after_leaf f nm a (failure e s a) w)) as [w' H].
      exists w'.
      replace (leaf_output f a) with VNone by (unfold leaf_output; rewrite Hb; reflexivity).
      econstructor; [|exact H]. apply leaf_call_fails; eauto.
Qed.

(** A loop whose child raises is ended by the error.  The child of the
    outer loop is itself a loop; on the element [5], which is not
    iterable, it raises a [TypeError], which leaves the outer loop: the
    third element is never evaluated, and no list is returned. *)
Lemma C6_loop_with_a_raising_child_aborts :
  let tree := Loop_init (Loop_init (Node_init double "double")) in
  let args := VList [VList [VInt 1]; VInt 5; VList [VInt 2]] in
  iterate args = Ret [VList [VInt 1]; VInt 5; VList [VInt 2]] /\
  fst (call tree args None world0) = Raise (TypeError "object is not iterable") /\
  calls (snd (call tree args None world0)) = [("double"%string, VInt 1)].
Proof. vm_compute. repeat split. Qed.

(** C6 (amended). On an iterable input a loop evaluates its child once
    per element, in element order.  When every evaluation returns, the
    loop returns the list of the results that are not absent, in that
    order: a list, never the absent result, also when every element's
    result is absent (then it is the empty list); no absent result ends
    the loop, whatever the severity of the loop or of its child.  When
    an evaluation of the child raises, the loop raises that error in the
    world that evaluation left, and the later elements are not
    evaluated.  One of the two always happens; over a leaf whose
    callable raises nothing outside [Exception] it is always the
    first. *)
Theorem C6_loop_collects_until_its_child_raises :
  forall node l nm s args reporter elems w,
    iterate args = Ret elems ->
    (forall results w',
        loop_spec node reporter elems w results w' ->
        process (Loop node l nm s) args reporter w
          = (Ret (VList (filter present results)), w') /\
        VList (filter present results) <> VNone /\
        List.length results = List.length elems /\
        (Forall (fun res => res = VNone) results -> filter present results = [])) /\
    (forall pre x rest results w1 e w2,
        elems = pre ++ x :: rest ->
        loop_spec node reporter pre w results w1 ->
        call node x (Some reporter) w1 = (Raise e, w2) ->
        process (Loop node l nm s) args reporter w = (Raise e, w2)) /\
    ((exists results w', loop_spec node reporter elems w results w') \/
     (exists pre x rest results w1 e w2,
         elems = pre ++ x :: rest /\
         loop_spec node reporter pre w results w1 /\
         call node x (Some reporter) w1 = (Raise e, w2))) /\
    (forall f fnm fs,
        node = Node f fnm fs ->
        well_behaved f ->
        exists results w', loop_spec node reporter elems w results w').
Proof.
  intros node l nm s args reporter elems w Hi.
  split; [|split; [|split]].
  - intros results w' Hl. repeat split.
    + exact (process_Loop_returns _ _ _ _ _ _ _ _ _ _ Hi Hl).
    + discriminate.
    + eapply loop_spec_length; eauto.
    + apply filter_present_none.
  - intros pre x rest results w1 e w2 He Hl Hx. subst elems.
    exact (process_Loop_raises _ _ _ _ _ _ _ _ _ _ _ _ _ _ Hi Hl Hx).
  - apply loop_returns_or_raises.
  - intros f fnm fs Hn Hf. subst node.
    destruct (loop_spec_on_leaf f fnm fs reporter Hf elems w) as [w' H].
    eexists. eexists. exact H.
Qed.

Lemma C6_loop_collects_until_its_child_raises_witness :
  let node := required (Node_init odd_only "odd_only") in
  let results := [VInt 10; VNone; VInt 30] in
  iterate (VList loop_input) = Ret loop_input /\
  loop_spec node root0 loop_input world1 results world_loop /\
  process (Loop_init node) (VList loop_input) root0 world1
    = (Ret (VList [VInt 10; VInt 30]), world_loop).
Proof.
  intros node results.
  assert (H : loop_spec node root0 loop_input world1 results world_loop).
  { unfold loop_input, results.
    eapply loop_step; [reflexivity|].
    eapply loop_step; [reflexivity|].
    eapply loop_step; [reflexivity|].
    apply loop_done. }
  split; [reflexivity|]. split; [exact H|].
  exact (proj1 (proj1 (C6_loop_collects_until_its_child_raises node _ _ NORMAL
                         (VList loop_input) root0 loop_input world1 eq_refl)
                  results world_loop H)).
Defined.

Example loop_where_every_element_fails :
  fst (call (Loop_init (Node_init failing "failing"))
         (VList [VInt 1; VInt 2; VInt 3]) None world0) = Ret (VList []).
Proof. reflexivity. Qed.

(** ** Branching model *)

Lemma process_Model kind nodes l nm s arg reporter :
  process (Model kind nodes l nm s) arg reporter
  = convert kind (map (branch_step arg reporter) nodes).
Proof. reflexivity. Qed.

Lemma branch_step_spec arg reporter branch node w result w' :
  call node arg (Some (scoped reporter branch)) w = (Ret result, w') ->
  branch_step arg reporter (branch, node) w
  = (Ret (keep branch result (severity node)), w').
Proof.
  intro Hc. unfold branch_step. simpl fst; simpl snd.
  rewrite (bind_Ret _ _ _ _ _ Hc). reflexivity.
Qed.

Lemma list_converter_spec arg reporter nodes w outs w' :
  model_spec arg reporter nodes w outs w' ->
  list_converter (map (branch_step arg reporter) nodes) w
  = (Ret (map snd (surviving outs)), w').
Proof.
  induction 1 as [w | branch node rest w result w' outs w'' Hc _ IH].
  - reflexivity.
  - simpl map. simpl list_converter.
    rewrite (bind_Ret _ _ _ _ _ (branch_step_spec _ _ _ _ _ _ _ Hc)).
    rewrite (bind_Ret _ _ _ _ _ IH). unfold ret, keep. simpl surviving.
    destruct (is_None result && is_OPTIONAL (severity node)); reflexivity.
Qed.

Lemma dict_converter_spec arg reporter nodes w outs w' :
  model_spec arg reporter nodes w outs w' ->
  forallb hashable (map fst nodes) = true ->
  forall acc,
    dict_converter acc (map (branch_step arg reporter) nodes) w
    = (Ret (as_dict acc (surviving outs)), w').
Proof.
  induction 1 as [w | branch node rest w result w' outs w'' Hc _ IH];
    intros Hk acc.
  - reflexivity.
  - simpl in Hk. apply andb_true_iff in Hk. destruct Hk as [Hb Hk].
    simpl map. simpl dict_converter.
    rewrite (bind_Ret _ _ _ _ _ (branch_step_spec _ _ _ _ _ _ _ Hc)).
    unfold keep. simpl surviving.
    destruct (is_None result && is_OPTIONAL (severity node)).
    + apply IH; assumption.
    + rewrite Hb. simpl. apply IH; assumption.
Qed.




Lemma process_Model_returns kind nodes l nm s arg reporter w outs w' :
  model_spec arg reporter nodes w outs w' ->
  (kind = DictModel -> forallb hashable (map fst nodes) = true) ->
  process (Model kind nodes l nm s) arg reporter w
  = (Ret (conversion kind (surviving outs)), w').
Proof.
  intros Hm Hk. rewrite process_Model. destruct kind; unfold convert, conversion.
  - rewrite (bind_Ret _ _ _ _ _ (list_converter_spec _ _ _ _ _ _ Hm)).
    reflexivity.
  - rewrite (bind_Ret _ _ _ _ _
               (dict_converter_spec _ _ _ _ _ _ Hm (Hk eq_refl) [])).
    reflexivity.
Qed.



Lemma surviving_In outs branch result :
  In (branch, result) (surviving outs) <->
  exists sev, In (branch, result, sev) outs /\ ~ (result = VNone /\ sev = OPTIONAL).
Proof.
  induction outs as [|[[b r] sv] rest IH]; simpl.
  - split; [intros [] | intros [sev [[] _]]].
  - destruct (is_None r) eqn:Hn; destruct (is_OPTIONAL sv) eqn:Ho; simpl.
    + apply is_None_true in Hn. apply is_OPTIONAL_true in Ho. subst r sv.
      rewrite IH. split.
      * intros [sev [Hin Hnot]]. exists sev. split; [right; exact Hin | exact Hnot].
      * intros [sev [[Heq|Hin] Hnot]].
        -- inversion Heq; subst. exfalso. apply Hnot. split; reflexivity.
        -- exists sev. split; assumption.
    + split.
      * intros [Heq|Hin].
        -- inversion Heq; subst. exists sv. split; [left; reflexivity|].
           intros [_ Hs]. subst sv. discriminate.
        -- apply IH in Hin. destruct Hin as [sev [Hin Hnot]].
           exists sev. split; [right; exact Hin | exact Hnot].
      * intros [sev [[Heq|Hin] Hnot]].
        -- inversion Heq; subst. left. reflexivity.
        -- right. apply IH. exists sev. split; assumption.
    + split.
      * intros [Heq|Hin].
        -- inversion Heq; subst. exists sv. split; [left; reflexivity|].
           intros [Hr _]. subst result. discriminate.
        -- apply IH in Hin. destruct Hin as [sev [Hin Hnot]].
           exists sev. split; [right; exact Hin | exact Hnot].
      * intros [sev [[Heq|Hin] Hnot]].
        -- inversion Heq; subst. left. reflexivity.
        -- right. apply IH. exists sev. split; assumption.
    + split.
      * intros [Heq|Hin].
        -- inversion Heq; subst. exists sv. split; [left; reflexivity|].
           intros [Hr _]. subst result. discriminate.
        -- apply IH in Hin. destruct Hin as [sev [Hin Hnot]].
           exists sev. split; [right; exact Hin | exact Hnot].
      * intros [sev [[Heq|Hin] Hnot]].
        -- inversion Heq; subst. left. reflexivity.
        -- right. apply IH. exists sev. split; assumption.
Qed.





Example keyed_model_partial_failure :
  fst (call (Model_init DictModel
               [(VStr "x", Node_init double "double");
                (VStr "y", optional (Node_init failing "failing"))])
         (VInt 1) None world0)
  = Ret (VDict [(VStr "x", VInt 2)]).
Proof. reflexivity. Qed.

(** ** The absent result *)

(** The absent result is [None] itself: a leaf whose callable returned
    [None] reports a success, and its result ends a chain before the
    next child is called, is dropped by a loop and, when the leaf is
    OPTIONAL, is left out by a model. *)
Lemma C4_None_output_is_treated_as_absent :
  fn_body returns_None (VInt 5) = Ret VNone /\
  (let (out, w) := call (Chain_init [Node_init returns_None "returns_None";
                                     Node_init double "double"] None)
                     (VInt 5) None world0 in
   out = Ret VNone /\
   calls w = [("returns_None"%string, VInt 5)] /\
   map snd (log w) = [success (VInt 5) VNone]) /\
  fst (call (Loop_init (Node_init returns_None "returns_None"))
         (VList [VInt 5]) None world0) = Ret (VList []) /\
  fst (call (Model_init ListModel
               [(VInt 0, optional (Node_init returns_None "returns_None"))])
         (VInt 5) None world0) = Ret (VList []).
Proof. vm_compute. repeat split. Qed.

Lemma chain_loop_prefix (f : BaseNode -> value -> option Reporter -> M value)
    nm reporter pre ms :
  forall arg w current w0,
    chain_loop f nm reporter pre arg w = (Ret current, w0) ->
    current <> VNone ->
    chain_loop f nm reporter (pre ++ ms) arg w
    = chain_loop f nm reporter ms current w0.
Proof.
  induction pre as [|n rest IH]; intros arg w current w0 H Hc.
  - simpl in H. unfold ret in H. inversion H; subst. reflexivity.
  - rewrite <- app_comm_cons, chain_loop_cons.
    rewrite chain_loop_cons in H. unfold bind in *.
    destruct (f n arg (Some (scoped reporter (name_value nm))) w)
      as [[res|e] w1]; [|discriminate].
    destruct (is_None res).
    + destruct (is_OPTIONAL (severity n)).
      * exact (IH _ _ _ _ H Hc).
      * unfold ret in H. inversion H; subst. congruence.
    + exact (IH _ _ _ _ H Hc).
Qed.

Lemma falsy_is_well_behaved : well_behaved falsy.
Proof.
  split; [reflexivity|].
  intros a e H. destruct a; simpl in H; try discriminate;
    try (inversion H; reflexivity).
  destruct z; discriminate.
Qed.

(** C4 (amended). The absent result is [None] and nothing else.  The
    call of a leaf returns what its callable returned, whatever the
    value, and [None] when the callable failed: a callable that returns
    [None] is recorded as a success, and its leaf returns the very value
    that a failed leaf returns.  Each container looks at nothing but
    whether that value is [None].  At any place of a chain, a result
    other than [None], falsy values such as [0], [False], the empty
    string, list or dict included, goes on into the next child, while
    [None] is seen through when the child is OPTIONAL and ends the chain
    otherwise.  A loop over any elements keeps every result other than
    [None], in order, and drops every [None]; over a leaf it returns the
    outputs of the callable on the elements without the [None] ones,
    returned or standing for a failure alike.  A model over any branches
    passes to the conversion every result other than [None], whatever
    the severity, and omits [None] exactly under OPTIONAL. *)
Theorem C4_only_None_is_absent :
  (forall f nm s arg given w,
      fn_async f = false ->
      (forall v, fn_body f arg = Ret v ->
                 call (Node f nm s) arg given w
                 = (Ret v, after_leaf f nm arg (success arg v) w)) /\
      (forall e, fn_body f arg = Raise e -> is_Exception e = true ->
                 call (Node f nm s) arg given w
                 = (Ret VNone, after_leaf f nm arg (failure e s arg) w))) /\
  (forall pre child rest l nm s arg reporter w current w0 v w1,
      process (Chain pre l nm s) arg reporter w = (Ret current, w0) ->
      current <> VNone ->
      call child current (Some (scoped reporter (name_value nm))) w0 = (Ret v, w1) ->
      (v <> VNone ->
       process (Chain (pre ++ child :: rest) l nm s) arg reporter w
       = process (Chain rest l nm s) v reporter w1) /\
      (v = VNone -> severity child = OPTIONAL ->
       process (Chain (pre ++ child :: rest) l nm s) arg reporter w
       = process (Chain rest l nm s) current reporter w1) /\
      (v = VNone -> severity child <> OPTIONAL ->
       process (Chain (pre ++ child :: rest) l nm s) arg reporter w
       = (Ret VNone, w1))) /\
  (forall node l nm s args reporter elems w results w',
      iterate args = Ret elems ->
      loop_spec node reporter elems w results w' ->
      process (Loop node l nm s) args reporter w
        = (Ret (VList (filter present results)), w') /\
      (forall v, In v (filter present results) <-> In v results /\ v <> VNone) /\
      (Forall (fun v => v <> VNone) results -> filter present results = results)) /\
  (forall f fnm fs l nm s args reporter elems w,
      well_behaved f ->
      iterate args = Ret elems ->
      fst (process (Loop (Node f fnm fs) l nm s) args reporter w)
      = Ret (VList (filter present (map (leaf_output f) elems)))) /\
  (forall kind nodes l nm s arg reporter w outs w',
      model_spec arg reporter nodes w outs w' ->
      (kind = DictModel -> forallb hashable (map fst nodes) = true) ->
      process (Model kind nodes l nm s) arg reporter w
        = (Ret (conversion kind (surviving outs)), w') /\
      (forall branch v,
          In (branch, v) (surviving outs) <->
          exists sev, In (branch, v, sev) outs /\ ~ (v = VNone /\ sev = OPTIONAL))).
Proof.
  split; [|split; [|split; [|split]]].
  - intros f nm s arg given w Ha. split.
    + intros v Hb. apply leaf_call_returns; assumption.
    + intros e Hb He. apply leaf_call_fails; assumption.
  - intros pre child rest l nm s arg reporter w current w0 v w1 Hp Hc Hcall.
    rewrite process_Chain in Hp.
    assert (Hstep : process (Chain (pre ++ child :: rest) l nm s) arg reporter w
                    = chain_loop call nm reporter (child :: rest) current w0).
    { rewrite process_Chain. exact (chain_loop_prefix _ _ _ _ _ _ _ _ _ Hp Hc). }
    rewrite Hstep, chain_loop_cons, (bind_Ret _ _ _ _ _ Hcall), !process_Chain.
    split; [|split].
    + intro Hv. apply is_None_false in Hv. rewrite Hv. reflexivity.
    + intros Hv Ho. subst v. rewrite Ho. reflexivity.
    + intros Hv Ho. subst v. simpl is_None. cbv iota.
      destruct (severity child); [reflexivity | congruence | reflexivity].
  - intros node l nm s args reporter elems w results w' Hi Hl.
    split; [|split].
    + exact (process_Loop_returns _ _ _ _ _ _ _ _ _ _ Hi Hl).
    + intro v. apply filter_present_In.
    + apply filter_present_all.
  - intros f fnm fs l nm s args reporter elems w Hf Hi.
    destruct (loop_spec_on_leaf f fnm fs reporter Hf elems w) as [w' Hl].
    rewrite (process_Loop_returns _ _ _ _ _ _ _ _ _ _ Hi Hl). reflexivity.
  - intros kind nodes l nm s arg reporter w outs w' Hm Hk. split.
    + exact (process_Model_returns _ _ _ _ _ _ _ _ _ _ Hm Hk).
    + intros branch v. apply surviving_In.
Qed.

Lemma C4_only_None_is_absent_witness :
  well_behaved falsy /\
  iterate (VList [VInt 1; VInt 0; VStr "a"; VNone; VBool true])
    = Ret [VInt 1; VInt 0; VStr "a"; VNone; VBool true] /\
  map (fn_body falsy) [VInt 1; VInt 0; VStr "a"; VNone; VBool true]
    = [Ret (VInt 0); Ret VNone; Ret (VStr ""); Raise (TypeError "unsupported operand");
       Ret (VBool false)] /\
  fst (process (Loop_init (Node_init falsy "falsy"))
         (VList [VInt 1; VInt 0; VStr "a"; VNone; VBool true]) root0 world1)
  = Ret (VList [VInt 0; VStr ""; VBool false]).
Proof.
  split; [exact falsy_is_well_behaved|]. split; [reflexivity|].
  split; [reflexivity|].
  exact (proj1 (proj2 (proj2 (proj2 C4_only_None_is_absent)))
           falsy "falsy"%string NORMAL 1 (Some "falsy"%string) NORMAL
           (VList [VInt 1; VInt 0; VStr "a"; VNone; VBool true]) root0
           [VInt 1; VInt 0; VStr "a"; VNone; VBool true] world1
           falsy_is_well_behaved eq_refl).
Defined.

(** ** Size *)

Lemma len_set_severity s n : len (set_severity s n) = len n.
Proof. destruct n; reflexivity. Qed.

Lemma len_set_name nm n : len (set_name nm n) = len n.
Proof. destruct n; reflexivity. Qed.

Lemma size_ok_set_severity s n : size_ok (set_severity s n) = size_ok n.
Proof. destruct n; reflexivity. Qed.

Lemma size_ok_set_name nm n : size_ok (set_name nm n) = size_ok n.
Proof. destruct n; reflexivity. Qed.

Lemma size_ok_Chain_init ns nm :
  forallb size_ok ns = true -> size_ok (Chain_init ns nm) = true.
Proof. intro H. simpl. rewrite Nat.eqb_refl, H. reflexivity. Qed.

Lemma size_ok_Loop_init c : size_ok c = true -> size_ok (Loop_init c) = true.
Proof. intro H. simpl. rewrite Nat.eqb_refl, H. reflexivity. Qed.

Lemma size_ok_Model_init k ns :
  forallb (fun bn => size_ok (snd bn)) ns = true ->
  size_ok (Model_init k ns) = true.
Proof. intro H. simpl. rewrite Nat.eqb_refl, H. reflexivity. Qed.

Lemma size_ok_copy n : size_ok (copy n) = true.
Proof.
  induction n as [f nm s | ns l nm s IH | c l nm s IH | k ns l nm s IH]
    using BaseNode_ind'.
  - reflexivity.
  - simpl copy. apply size_ok_Chain_init.
    induction IH as [|x rest Hx _ IHrest]; simpl; [reflexivity|].
    rewrite Hx. exact IHrest.
  - simpl copy. apply size_ok_Loop_init. exact IH.
  - simpl copy. apply size_ok_Model_init.
    induction IH as [|x rest Hx _ IHrest]; simpl; [reflexivity|].
    rewrite Hx. exact IHrest.
Qed.

Lemma len_is_leaves n : size_ok n = true -> len n = leaves n.
Proof.
  induction n as [f nm s | ns l nm s IH | c l nm s IH | k ns l nm s IH]
    using BaseNode_ind'; simpl; intro H.
  - reflexivity.
  - apply andb_true_iff in H. destruct H as [Hl Hc].
    apply Nat.eqb_eq in Hl. subst l. f_equal.
    induction IH as [|x rest Hx _ IHrest]; simpl in *; [reflexivity|].
    apply andb_true_iff in Hc. destruct Hc as [Hc1 Hc2].
    rewrite (Hx Hc1), (IHrest Hc2). reflexivity.
  - apply andb_true_iff in H. destruct H as [Hl Hc].
    apply Nat.eqb_eq in Hl. subst l. auto.
  - apply andb_true_iff in H. destruct H as [Hl Hc].
    apply Nat.eqb_eq in Hl. subst l. f_equal.
    induction IH as [|x rest Hx _ IHrest]; simpl in *; [reflexivity|].
    apply andb_true_iff in Hc. destruct Hc as [Hc1 Hc2].
    rewrite (Hx Hc1), (IHrest Hc2). reflexivity.
Qed.

Lemma leaves_copy n : leaves (copy n) = leaves n.
Proof.
  induction n as [f nm s | ns l nm s IH | c l nm s IH | k ns l nm s IH]
    using BaseNode_ind'; simpl.
  - reflexivity.
  - f_equal. induction IH as [|x rest Hx _ IHrest]; simpl; congruence.
  - exact IH.
  - f_equal. induction IH as [|x rest Hx _ IHrest]; simpl; congruence.
Qed.

Lemma len_copy n : size_ok n = true -> len (copy n) = len n.
Proof.
  intro H. rewrite (len_is_leaves _ (size_ok_copy n)), leaves_copy.
  symmetry. apply len_is_leaves. exact H.
Qed.

Lemma mapO_Ret {A B} (f : A -> outcome B) (l : list A) :
  forall l', mapO f l = Ret l' -> Forall2 (fun a b => f a = Ret b) l l'.
Proof.
  induction l as [|a rest IH]; simpl; intros l' H.
  - inversion H. constructor.
  - destruct (f a) as [b|e] eqn:Hf; [|discriminate].
    destruct (mapO f rest) as [bs|e] eqn:Hr; [|discriminate].
    inversion H; subst. constructor; auto.
Qed.

Lemma to_async_size n :
  forall n', to_async n = Ret n' -> size_ok n' = true /\ leaves n' = leaves n.
Proof.
  induction n as [f nm s | ns l nm s IH | c l nm s IH | k ns l nm s IH]
    using BaseNode_ind'; simpl; intros n' H.
  - inversion H; subst. split; reflexivity.
  - destruct (mapO to_async ns) as [ns'|e] eqn:Hm; [|discriminate].
    inversion H; subst. clear H. apply mapO_Ret in Hm.
    assert (Hall : forallb size_ok ns' = true
                   /\ list_sum (map leaves ns') = list_sum (map leaves ns)).
    { induction Hm as [|a b rest rest' Hab _ IHm]; simpl; [split; reflexivity|].
      inversion IH as [|? ? Ha Hrest]; subst.
      destruct (Ha _ Hab) as [Hs Hl]. destruct (IHm Hrest) as [Hs' Hl'].
      rewrite Hs, Hl, Hl'. split; [exact Hs' | reflexivity]. }
    destruct Hall as [Hs Hl]. split.
    + apply size_ok_Chain_init. exact Hs.
    + simpl. exact Hl.
  - destruct (to_async c) as [c'|e] eqn:Hc; [|discriminate].
    inversion H; subst. destruct (IH _ eq_refl) as [Hs Hl]. split.
    + apply size_ok_Loop_init. exact Hs.
    + simpl. exact Hl.
  - destruct (mapO _ ns); discriminate.
Qed.

(** The empty chain that [nd()] returns has size 0, and so has a model
    without branches: a node's size is not always at least 1. *)
Lemma C10_empty_chain_has_size_zero :
  nd None = Ret (Sync, Chain_init [] None) /\
  len (Chain_init [] None) = 0 /\
  len (Model_init ListModel []) = 0 /\
  ~ 1 <= len (Chain_init [] None).
Proof.
  repeat split. simpl. lia.
Qed.

(** C10 (amended). A leaf has size 1 and every constructor of a
    container stores the sum of its children's sizes, so a tree whose
    containers were all constructed that way has as size the number of
    its leaves: at least 1 exactly when it has a leaf, and 0 for an empty
    chain or model.  [copy], [optional], [required], [named] and
    [to_async] build their result with the constructors again and keep
    the size. *)
Theorem C10_size_is_the_number_of_leaves :
  (forall f nm, len (Node_init f nm) = 1) /\
  (forall ns nm,
      len (Chain_init ns nm) = list_sum (map len ns) /\
      (forallb size_ok ns = true -> size_ok (Chain_init ns nm) = true)) /\
  (forall c,
      len (Loop_init c) = len c /\
      (size_ok c = true -> size_ok (Loop_init c) = true)) /\
  (forall k ns,
      len (Model_init k ns) = list_sum (map (fun bn => len (snd bn)) ns) /\
      (forallb (fun bn => size_ok (snd bn)) ns = true ->
       size_ok (Model_init k ns) = true)) /\
  (forall n,
      size_ok n = true ->
      len n = leaves n /\
      (1 <= len n <-> 1 <= leaves n) /\
      (size_ok (copy n) = true /\ len (copy n) = len n) /\
      (size_ok (optional n) = true /\ len (optional n) = len n) /\
      (size_ok (required n) = true /\ len (required n) = len n) /\
      (forall validate_name new n',
          named validate_name n new = Ret n' ->
          size_ok n' = true /\ len n' = len n) /\
      (forall n', to_async n = Ret n' -> size_ok n' = true /\ len n' = len n)).
Proof.
  split; [reflexivity|].
  split; [intros; split; [reflexivity | apply size_ok_Chain_init]|].
  split; [intros; split; [reflexivity | apply size_ok_Loop_init]|].
  split; [intros; split; [reflexivity | apply size_ok_Model_init]|].
  intros n H.
  pose proof (len_is_leaves n H) as Hl.
  pose proof (len_copy n H) as Hc.
  pose proof (size_ok_copy n) as Hs.
  split; [exact Hl|]. split; [rewrite Hl; tauto|].
  split; [split; assumption|].
  split; [unfold optional; rewrite size_ok_set_severity, len_set_severity;
          split; assumption|].
  split; [unfold required; rewrite size_ok_set_severity, len_set_severity;
          split; assumption|].
  split.
  - intros validate_name new n' Hn. unfold named in Hn.
    destruct (validate_name new) as [nm|e]; [|discriminate].
    inversion Hn; subst. rewrite size_ok_set_name, len_set_name.
    split; assumption.
  - intros n' Ha. destruct (to_async_size n n' Ha) as [Hs' Hl'].
    split; [exact Hs'|]. rewrite (len_is_leaves n' Hs'), Hl'. congruence.
Qed.

Lemma C10_size_is_the_number_of_leaves_witness :
  size_ok sized_tree = true /\
  len sized_tree = 3 /\
  len (copy sized_tree) = len sized_tree /\
  len (required sized_tree) = len sized_tree.
Proof.
  assert (H : size_ok sized_tree = true) by reflexivity.
  pose proof (proj2 (proj2 (proj2 (proj2
                C10_size_is_the_number_of_leaves))) sized_tree H) as T.
  split; [exact H|]. split; [reflexivity|].
  split; [exact (proj2 (proj1 (proj2 (proj2 T))))|].
  exact (proj2 (proj1 (proj2 (proj2 (proj2 (proj2 T)))))).
Defined.

(** ** Building *)

(** C3. [build] on a list or a dict of chainables: the branch that
    recognises the collection binds the model class and the unzipped
    items and returns nothing, so control reaches the final [raise]:
    every non-empty list or dict gets the [TypeError] meant for
    unsupported types, and an empty one fails while unpacking.
    [async_build] on the same list returns the ordered model of the
    recursively built elements. *)
Theorem C3_build_raises_on_every_collection :
  (forall items, exists e, build (CList items) = Raise e) /\
  (forall items, exists e, build (CDict items) = Raise e) /\
  build (CList [CFunc double; CFunc identity]) = Raise (unsupported "list") /\
  build (CDict [(VStr "x", CFunc double)]) = Raise (unsupported "dict") /\
  build (CList []) = Raise unpack_empty /\
  async_build (CList [CFunc double; CFunc identity])
    = Ret (Model_init ListModel
             [(VInt 0, Node_init (asyncify double) "double");
              (VInt 1, Node_init (asyncify identity) "identity")]).
Proof.
  split; [intros [|x rest]; eexists; reflexivity|].
  split; [intros [|x rest]; eexists; reflexivity|].
  repeat split.
Qed.

(** ** Reporting *)

(** C5. [__call__] never uses the reporter it is given: it runs
    [_process] on a new root reporter.  In a call of a chain of two
    leaves the reporter created for the call is the root 0; the success
    of the first leaf and the failure of the second are recorded on the
    roots 1 and 2, and the reporter of the call has received nothing. *)
Theorem C5_root_reporter_receives_nothing :
  (forall _process self arg given,
      BaseNode_call _process self arg given = BaseNode_call _process self arg None) /\
  fst (new_Reporter (name_value (name pipeline)) world0) = Ret pipeline_root /\
  (let w := snd (call pipeline (VInt 1) None world0) in
   map snd (log w)
     = [success (VInt 1) (VInt 2);
        failure (UserException "ZeroDivisionError") NORMAL (VInt 2)] /\
   map (fun e => rp_root (fst e)) (log w) = [1; 2] /\
   received pipeline_root w = []).
Proof. repeat split. Qed.

(** ** Copies *)

(** C8. [copy] calls the constructors again, which set the severity to
    [NORMAL] and, in a loop or a model, the name to the constructor's
    own: the copy that [optional], [required] and [named] modify has
    lost the severity of the receiver, the severities of its children
    and a name given by [named].  Renaming an optional leaf yields a
    NORMAL leaf; marking a chain required turns its optional child into
    a NORMAL one; marking a renamed loop optional gives it back the name
    of its child. *)
Theorem C8_copy_loses_severity_and_name :
  (forall n, severity (copy n) = NORMAL) /\
  severity optional_leaf = OPTIONAL /\
  named (fun s => Ret s) optional_leaf "twice" = Ret (Node double "twice" NORMAL) /\
  (let chain := Chain_init [optional_leaf] (Some "c"%string) in
   map severity (children chain) = [OPTIONAL] /\
   map severity (children (required chain)) = [NORMAL]) /\
  (let loop := set_name "renamed" (Loop_init (Node_init double "double")) in
   name loop = Some "renamed"%string /\
   name (optional loop) = Some "double"%string).
Proof.
  split; [intros [f nm s | ns l nm s | c l nm s | k ns l nm s]; reflexivity|].
  repeat split.
Qed.

(** ** The two forms of a tree *)

(** C9. A model without branches: the synchronous form returns the empty
    list, the form that [async_build] makes of the same empty list raises
    a [ValueError] when it unpacks the zipped, empty list of its tasks,
    before it awaits anything and so under every event loop.
    And [to_async] of any model raises a [TypeError], for it
    instantiates the abstract class [AsyncModel]: a tree with a model has
    no concurrent form through [to_async]. *)
Theorem C9_concurrent_model_diverges :
  async_build (CList []) = Ret (Model_init ListModel []) /\
  (forall gather arg w,
      fst (call (Model_init ListModel []) arg None w) = Ret (VList []) /\
      fst (acall gather (Model_init ListModel []) arg None w)
        = Raise (ValueError "not enough values to unpack (expected 3, got 0)")) /\
  (forall kind nodes l nm s,
      exists e, to_async (Model kind nodes l nm s) = Raise e) /\
  to_async (Model_init ListModel [(VInt 0, Node_init double "double")])
    = Raise abstract_AsyncModel.
Proof.
  split; [reflexivity|].
  split; [intros; split; reflexivity|].
  split; [|reflexivity].
  intros kind nodes l nm s. simpl.
  destruct (mapO _ nodes) as [ns'|e]; eexists; reflexivity.
Qed.

(** ** The registry of chains *)

Lemma dict_get_put_same key e reg :
  chains.dict_get key (chains.dict_put key e reg) = Some e.
Proof.
  induction reg as [|[k e'] rest IH]; simpl.
  - rewrite String.eqb_refl. reflexivity.
  - destruct (String.eqb k key) eqn:Hk; simpl; rewrite Hk; auto.
Qed.

Lemma dict_get_put_other key key' e reg :
  key' <> key ->
  chains.dict_get key' (chains.dict_put key e reg) = chains.dict_get key' reg.
Proof.
  intro Hne. induction reg as [|[k e'] rest IH]; simpl.
  - destruct (String.eqb key key') eqn:Hk; [|reflexivity].
    apply String.eqb_eq in Hk. congruence.
  - destruct (String.eqb k key) eqn:Hk; simpl.
    + apply String.eqb_eq in Hk. subst k.
      destruct (String.eqb key key') eqn:Hk'; [|reflexivity].
      apply String.eqb_eq in Hk'. congruence.
    + destruct (String.eqb k key'); auto.
Qed.

Lemma dict_put_same key e reg :
  chains.dict_get key reg = Some e -> chains.dict_put key e reg = reg.
Proof.
  induction reg as [|[k e'] rest IH]; simpl; intro H.
  - discriminate.
  - destruct (String.eqb k key) eqn:Hk.
    + congruence.
    + rewrite (IH H). reflexivity.
Qed.

Lemma split_dots_nonempty s : chains.split_dots s <> [].
Proof.
  destruct s as [|c rest]; simpl; [discriminate|].
  destruct (Ascii.eqb c "."); [discriminate|].
  destruct (chains.split_dots rest); discriminate.
Qed.

Lemma register_loop_in_empty repr pre names chain :
  fst (chains.register_loop repr pre names chain []) = None.
Proof.
  revert pre. induction names as [|k rest IH]; intro pre; simpl.
  - reflexivity.
  - destruct rest as [|k2 rest']; [reflexivity|].
    specialize (IH (pre ++ [k])).
    destruct (chains.register_loop repr (pre ++ [k]) (k2 :: rest') chain [])
      as [r sub']. exact IH.
Qed.

(** What one step of [_register] does when it succeeds on [key :: rest]:
    the namespace gets, under [key], the chain itself or the namespace in
    which the rest was registered. *)
Lemma register_loop_step repr pre key rest chain reg reg' :
  chains.register_loop repr pre (key :: rest) chain reg = (None, reg') ->
  (rest = [] /\ chains.dict_get key reg = None /\
   reg' = chains.dict_put key (chains.Registered chain) reg) \/
  (rest <> [] /\
   exists sub sub',
     (chains.dict_get key reg = Some (chains.Namespace sub) \/
      (chains.dict_get key reg = None /\ sub = [])) /\
     chains.register_loop repr (pre ++ [key]) rest chain sub = (None, sub') /\
     reg' = chains.dict_put key (chains.Namespace sub') reg).
Proof.
  simpl. intro H.
  destruct (chains.dict_get key reg) as [[c|sub]|] eqn:Hg.
  - discriminate.
  - destruct rest as [|k2 rest']; [discriminate|].
    destruct (chains.register_loop repr (pre ++ [key]) (k2 :: rest') chain sub)
      as [r sub'] eqn:Hr.
    inversion H; subst. right. split; [discriminate|].
    exists sub, sub'. auto.
  - destruct rest as [|k2 rest'].
    + inversion H; subst. left. auto.
    + destruct (chains.register_loop repr (pre ++ [key]) (k2 :: rest') chain [])
        as [r sub'] eqn:Hr.
      inversion H; subst. right. split; [discriminate|].
      exists [], sub'. auto.
Qed.

Lemma get_after_register_loop repr names :
  forall pre chain reg reg',
    names <> [] ->
    chains.register_loop repr pre names chain reg = (None, reg') ->
    chains.get_loop names reg' = [chain].
Proof.
  induction names as [|key rest IH]; intros pre chain reg reg' Hne H.
  - congruence.
  - destruct (register_loop_step _ _ _ _ _ _ _ H)
      as [[Hrest [Hg Hreg]] | [Hrest [sub [sub' [Hg [Hr Hreg]]]]]]; subst reg'.
    + subst rest. simpl. rewrite dict_get_put_same. reflexivity.
    + simpl. rewrite dict_get_put_same. eapply IH; eauto.
Qed.

(** X1. A chain registered under a dotted name is what [get] returns for
    that name, alone. *)
Theorem X1_get_returns_the_registered_chain :
  forall repr name chain reg reg',
    chains._register repr (chains.split_dots name) chain reg = (None, reg') ->
    chains.get (VStr name) reg' = Ret [chain].
Proof.
  intros repr name chain reg reg' H. simpl. f_equal.
  eapply get_after_register_loop; eauto. apply split_dots_nonempty.
Qed.

Lemma register_loop_twice repr names :
  forall pre c1 c2 reg reg',
    names <> [] ->
    chains.register_loop repr pre names c1 reg = (None, reg') ->
    chains.register_loop repr pre names c2 reg'
    = (Some (chains.already_registered repr (pre ++ names)), reg').
Proof.
  induction names as [|key rest IH]; intros pre c1 c2 reg reg' Hne H.
  - congruence.
  - destruct (register_loop_step _ _ _ _ _ _ _ H)
      as [[Hrest [Hg Hreg]] | [Hrest [sub [sub' [Hg [Hr Hreg]]]]]]; subst reg'.
    + subst rest. simpl. rewrite dict_get_put_same. reflexivity.
    + simpl. rewrite dict_get_put_same.
      destruct rest as [|k2 rest']; [congruence|].
      rewrite (IH (pre ++ [key]) c1 c2 sub sub' Hrest Hr).
      rewrite <- app_assoc. simpl.
      rewrite (dict_put_same key (chains.Namespace sub')); [reflexivity|].
      apply dict_get_put_same.
Qed.

(** X2. Registering a second chain under a name that was registered
    fails with the [ValueError] that names it, and leaves the registry as
    it was. *)
Theorem X2_registering_a_name_twice_fails :
  forall repr names c1 c2 reg reg',
    names <> [] ->
    chains._register repr names c1 reg = (None, reg') ->
    chains._register repr names c2 reg'
    = (Some (chains.already_registered repr names), reg').
Proof.
  intros repr names c1 c2 reg reg' Hne H.
  exact (register_loop_twice repr names [] c1 c2 reg reg' Hne H).
Qed.

Lemma register_loop_failure repr names :
  forall pre chain reg e reg',
    chains.register_loop repr pre names chain reg = (Some e, reg') ->
    reg' = reg.
Proof.
  induction names as [|key rest IH]; intros pre chain reg e reg' H;
    simpl in H.
  - discriminate.
  - destruct (chains.dict_get key reg) as [[c|sub]|] eqn:Hg.
    + congruence.
    + destruct rest as [|k2 rest']; [congruence|].
      destruct (chains.register_loop repr (pre ++ [key]) (k2 :: rest') chain sub)
        as [r sub'] eqn:Hr.
      inversion H; subst. rewrite (IH _ _ _ _ _ Hr).
      apply dict_put_same. exact Hg.
    + destruct rest as [|k2 rest']; [congruence|].
      pose proof (register_loop_in_empty repr (pre ++ [key]) (k2 :: rest') chain)
        as He.
      destruct (chains.register_loop repr (pre ++ [key]) (k2 :: rest') chain [])
        as [r sub'] eqn:Hr.
      simpl in He. congruence.
Qed.

(** X3. A registration that raises has not changed the registry: no
    namespace is created on the way to an error. *)
Theorem X3_failed_registration_changes_nothing :
  forall repr names chain reg e reg',
    chains._register repr names chain reg = (Some e, reg') ->
    reg' = reg.
Proof.
  intros repr names chain reg e reg' H.
  exact (register_loop_failure repr names [] chain reg e reg' H).
Qed.

Lemma in_components_put key e reg chain :
  In chain (chains.components e) ->
  In chain (chains.components (chains.Namespace (chains.dict_put key e reg))).
Proof.
  intro H. simpl. induction reg as [|[k e'] rest IH]; simpl.
  - rewrite app_nil_r. exact H.
  - destruct (String.eqb k key); simpl; apply in_or_app; auto.
Qed.

Lemma get_prefix_after_register_loop repr names :
  forall pre chain reg reg' p q,
    names = p ++ q ->
    names <> [] ->
    chains.register_loop repr pre names chain reg = (None, reg') ->
    In chain (chains.get_loop p reg').
Proof.
  induction names as [|key rest IH]; intros pre chain reg reg' p q Hp Hne H.
  - congruence.
  - destruct (register_loop_step _ _ _ _ _ _ _ H)
      as [[Hrest [Hg Hreg]] | [Hrest [sub [sub' [Hg [Hr Hreg]]]]]]; subst reg'.
    + subst rest. destruct p as [|k p'].
      * apply in_components_put. simpl. auto.
      * simpl in Hp. inversion Hp as [[Hk Hnil]]. subst k.
        symmetry in Hnil. apply app_eq_nil in Hnil. destruct Hnil; subst.
        simpl. rewrite dict_get_put_same. simpl. auto.
    + destruct p as [|k p'].
      * apply in_components_put.
        exact (IH _ _ _ _ [] rest eq_refl Hrest Hr).
      * simpl in Hp. inversion Hp as [[Hk Hq]]. subst k.
        simpl. rewrite dict_get_put_same.
        exact (IH _ _ _ _ p' q Hq Hrest Hr).
Qed.

(** X4. After a chain was registered under the names [p ++ q], looking up
    the names [p] of any enclosing namespace finds it, and so does
    [get()] without a name. *)
Theorem X4_get_of_a_prefix_finds_the_chain :
  forall repr p q chain reg reg',
    p ++ q <> [] ->
    chains._register repr (p ++ q) chain reg = (None, reg') ->
    In chain (chains.get_loop p reg') /\
    exists found, chains.get VNone reg' = Ret found /\ In chain found.
Proof.
  intros repr p q chain reg reg' Hne H. split.
  - exact (get_prefix_after_register_loop repr (p ++ q) [] chain reg reg' p q
             eq_refl Hne H).
  - eexists. split; [reflexivity|].
    exact (get_prefix_after_register_loop repr (p ++ q) [] chain reg reg' []
             (p ++ q) eq_refl Hne H).
Qed.

Lemma components_put_incl key e reg c :
  (forall e0, chains.dict_get key reg = Some e0 ->
              In c (chains.components e0) -> In c (chains.components e)) ->
  In c (chains.components (chains.Namespace reg)) ->
  In c (chains.components (chains.Namespace (chains.dict_put key e reg))).
Proof.
  simpl. induction reg as [|[k e'] rest IH]; simpl; intros Hold H.
  - destruct H.
  - apply in_app_or in H.
    destruct (String.eqb k key) eqn:Hk; simpl; apply in_or_app.
    + destruct H as [H|H]; [left; eapply Hold; eauto | right; exact H].
    + destruct H as [H|H]; [left; exact H | right; apply IH; assumption].
Qed.

Lemma get_loop_mono repr names :
  forall pre chain reg reg' q c,
    chains.register_loop repr pre names chain reg = (None, reg') ->
    In c (chains.get_loop q reg) ->
    In c (chains.get_loop q reg').
Proof.
  induction names as [|key rest IH]; intros pre chain reg reg' q c H Hin.
  - simpl in H. inversion H; subst. exact Hin.
  - assert (Hold : forall X,
               (forall sub, chains.dict_get key reg = Some (chains.Namespace sub) ->
                            forall q', In c (chains.get_loop q' sub) ->
                                       In c (match X with
                                             | chains.Namespace sub' => chains.get_loop q' sub'
                                             | chains.Registered _ => []
                                             end)) ->
               (forall ch, chains.dict_get key reg <> Some (chains.Registered ch)) ->
               In c (chains.get_loop q (chains.dict_put key X reg))).
    { intros X Hsub Hnot. destruct q as [|k q'].
      - apply components_put_incl; [|exact Hin].
        intros e0 Hg Hc. destruct e0 as [ch|sub].
        + exfalso. exact (Hnot ch Hg).
        + specialize (Hsub sub Hg [] Hc). destruct X; [destruct Hsub | exact Hsub].
      - simpl in Hin |- *.
        destruct (String.eqb k key) eqn:Hk.
        + apply String.eqb_eq in Hk. subst k. rewrite dict_get_put_same.
          destruct (chains.dict_get key reg) as [[ch|sub]|] eqn:Hg.
          * exfalso. exact (Hnot ch eq_refl).
          * specialize (Hsub sub eq_refl q' Hin).
            destruct X; [destruct Hsub | exact Hsub].
          * destruct q'; destruct Hin.
        + apply String.eqb_neq in Hk.
          rewrite (dict_get_put_other key k X reg Hk). exact Hin. }
    destruct (register_loop_step _ _ _ _ _ _ _ H)
      as [[Hrest [Hg Hreg]] | [Hrest [sub [sub' [Hg [Hr Hreg]]]]]]; subst reg'.
    + apply Hold.
      * intros sub Hs. congruence.
      * intros ch Hs. congruence.
    + apply Hold.
      * intros sub0 Hs q' Hq'. destruct Hg as [Hg|[Hg _]]; [|congruence].
        assert (sub0 = sub) by congruence. subst sub0.
        exact (IH _ _ _ _ q' c Hr Hq').
      * intros ch Hs. destruct Hg as [Hg|[Hg _]]; congruence.
Qed.

(** X5. Registering a chain hides nothing: every chain that a lookup
    returned before the registration is still returned by the same
    lookup after it. *)
Theorem X5_registration_keeps_earlier_lookups :
  forall repr names chain reg reg' name found found' c,
    chains._register repr names chain reg = (None, reg') ->
    chains.get name reg = Ret found ->
    chains.get name reg' = Ret found' ->
    In c found -> In c found'.
Proof.
  intros repr names chain reg reg' name found found' c H Hf Hf' Hin.
  unfold chains._register in H.
  destruct name; unfold chains.get in Hf, Hf'; try discriminate;
    injection Hf as <-; injection Hf' as <-.
  - exact (get_loop_mono repr names [] chain reg reg' [] c H Hin).
  - exact (get_loop_mono repr names [] chain reg reg' _ c H Hin).
Qed.

(** ** Piping *)

Lemma chain_loop_app (f : BaseNode -> value -> option Reporter -> M value)
    nm reporter ns ms :
  forall arg w,
    arg <> VNone ->
    chain_loop f nm reporter (ns ++ ms) arg w
    = and_then (chain_loop f nm reporter ns arg) (chain_loop f nm reporter ms) w.
Proof.
  induction ns as [|n rest IH]; intros arg w Harg.
  - apply is_None_false in Harg. simpl. unfold and_then, bind, ret.
    rewrite Harg. reflexivity.
  - rewrite <- app_comm_cons, !chain_loop_cons.
    unfold and_then at 1. unfold bind.
    destruct (f n arg (Some (scoped reporter (name_value nm))) w)
      as [[res|e] w1]; [|reflexivity].
    destruct (is_None res) eqn:Hn.
    + destruct (is_OPTIONAL (severity n)).
      * rewrite (IH arg w1 Harg). reflexivity.
      * reflexivity.
    + apply is_None_false in Hn. rewrite (IH res w1 Hn). reflexivity.
Qed.

Lemma build_is_NORMAL other n : build other = Ret n -> severity n = NORMAL.
Proof.
  destruct other as [h m|f|items|items|ty]; simpl; intro H.
  - destruct h; [|discriminate]. inversion H. destruct m; reflexivity.
  - destruct (is_async f); [discriminate|]. inversion H. reflexivity.
  - destruct items; discriminate.
  - destruct items; discriminate.
  - discriminate.
Qed.

(** X6. [chain | other] on a synchronous chain, when it yields a
    synchronous chain, is the chain of the old children followed by the
    node built from [other]; its size is the old children's plus the new
    node's, and on an input other than [None] it runs the old chain and,
    unless that ended with an absent result, calls the new node on what
    the old chain returned. *)
Theorem X6_pipe_appends_and_composes :
  forall ns l nm s other piped,
    Chain_or (Chain ns l nm s) other = Ret (Sync, piped) ->
    exists n,
      build other = Ret n /\
      piped = Chain_init (ns ++ [n]) nm /\
      len piped = list_sum (map len ns) + len n /\
      forall arg reporter w,
        arg <> VNone ->
        process piped arg reporter w
        = and_then (process (Chain ns l nm s) arg reporter)
                   (fun v => call n v None) w.
Proof.
  intros ns l nm s other piped H. unfold Chain_or in H.
  destruct (is_node_async other).
  - destruct (to_async (Chain ns l nm s)) as [aself|e]; [|discriminate].
    destruct (AsyncChain_or aself other); discriminate.
  - destruct (build other) as [n|e] eqn:Hb; [|discriminate].
    inversion H; subst. exists n.
    split; [reflexivity|]. split; [reflexivity|]. split.
    + simpl. rewrite map_app, list_sum_app. simpl. lia.
    + intros arg reporter w Harg. simpl chain_nodes.
      unfold Chain_init. rewrite !process_Chain.
      rewrite (chain_loop_app call nm reporter ns [n] arg w Harg).
      unfold and_then, bind.
      destruct (chain_loop call nm reporter ns arg w) as [[v|e] w1];
        [|reflexivity].
      destruct (is_None v); [reflexivity|].
      rewrite chain_loop_cons. unfold bind.
      change (call n v (Some (scoped reporter (name_value nm))) w1)
        with (call n v None w1).
      destruct (call n v None w1) as [[res|e] w2]; [|reflexivity].
      rewrite (build_is_NORMAL other n Hb). simpl.
      destruct res; reflexivity.
Qed.

(** ** Trees that never raise *)

Lemma call_returns n :
  returns n -> forall arg given w, exists v w', call n arg given w = (Ret v, w').
Proof.
  intros H arg given w. unfold call, BaseNode_call, bind, new_Reporter.
  apply H.
Qed.

Lemma chain_loop_returns nm reporter ns :
  Forall returns ns ->
  forall arg w, exists v w', chain_loop call nm reporter ns arg w = (Ret v, w').
Proof.
  induction 1 as [|n rest Hn _ IH]; intros arg w.
  - exists arg, w. reflexivity.
  - rewrite chain_loop_cons. unfold bind.
    destruct (call_returns n Hn arg (Some (scoped reporter (name_value nm))) w)
      as [res [w1 Hc]].
    rewrite Hc. destruct (is_None res).
    + destruct (is_OPTIONAL (severity n)); [apply IH|].
      exists VNone, w1. reflexivity.
    + apply IH.
Qed.

Lemma branch_step_returns arg reporter bn :
  returns (snd bn) ->
  forall w, exists item w', branch_step arg reporter bn w = (Ret item, w').
Proof.
  intros H w. unfold branch_step, bind.
  destruct (call_returns _ H arg (Some (scoped reporter (fst bn))) w)
    as [res [w1 Hc]].
  rewrite Hc. eexists. eexists. reflexivity.
Qed.

Lemma list_converter_returns arg reporter ns :
  Forall (fun bn => returns (snd bn)) ns ->
  forall w, exists l w',
    list_converter (map (branch_step arg reporter) ns) w = (Ret l, w').
Proof.
  induction 1 as [|bn rest Hn _ IH]; intro w.
  - exists [], w. reflexivity.
  - simpl. unfold bind at 1.
    destruct (branch_step_returns arg reporter bn Hn w) as [item [w1 Hs]].
    rewrite Hs. unfold bind at 1.
    destruct (IH w1) as [l [w2 Hl]]. rewrite Hl.
    eexists. eexists. reflexivity.
Qed.

Lemma dict_converter_returns arg reporter ns :
  Forall (fun bn => hashable (fst bn) = true /\ returns (snd bn)) ns ->
  forall acc w, exists d w',
    dict_converter acc (map (branch_step arg reporter) ns) w = (Ret d, w').
Proof.
  induction 1 as [|bn rest [Hh Hn] _ IH]; intros acc w.
  - exists acc, w. reflexivity.
  - simpl. unfold bind at 1. unfold branch_step at 1. unfold bind at 1.
    destruct (call_returns _ Hn arg (Some (scoped reporter (fst bn))) w)
      as [res [w1 Hc]].
    rewrite Hc. unfold ret at 1. unfold keep.
    destruct (is_None res && is_OPTIONAL (severity (snd bn))).
    + apply IH.
    + rewrite Hh. apply IH.
Qed.

(** X7. A tree of leaves, chains and models never raises, whatever its
    input, when the callables of its leaves are plain functions that
    raise nothing outside [Exception] and the branches of its models are
    hashable: every failure of a callable ends as a returned value. *)
Theorem X7_calm_trees_never_raise :
  forall n,
    calm n ->
    forall arg given w, exists v w', call n arg given w = (Ret v, w').
Proof.
  intros n Hcalm. apply call_returns. revert Hcalm.
  induction n as [f nm s | ns l nm s IH | c l nm s IH | k ns l nm s IH]
    using BaseNode_ind'; intro Hcalm.
  - destruct Hcalm as [Ha He]. intros arg reporter w. simpl.
    unfold try_report, apply_func, bind, called, lift. rewrite Ha.
    destruct (fn_body f arg) as [v|e] eqn:Hb.
    + eexists. eexists. reflexivity.
    + rewrite (He _ _ Hb). eexists. eexists. reflexivity.
  - intros arg reporter w. rewrite process_Chain.
    apply chain_loop_returns.
    simpl in Hcalm. induction IH as [|x rest Hx _ IHrest]; constructor.
    + apply Hx. apply Hcalm.
    + apply IHrest. apply Hcalm.
  - destruct Hcalm.
  - assert (Hall : Forall (fun bn => hashable (fst bn) = true /\ returns (snd bn)) ns).
    { simpl in Hcalm. induction IH as [|x rest Hx _ IHrest]; constructor.
      - split; [apply Hcalm | apply Hx; apply Hcalm].
      - apply IHrest. apply Hcalm. }
    intros arg reporter w. rewrite process_Model. destruct k; unfold convert, bind.
    + destruct (list_converter_returns arg reporter ns
                  (Forall_impl _ (fun bn H => proj2 H) Hall) w) as [lst [w1 Hl]].
      rewrite Hl. eexists. eexists. reflexivity.
    + destruct (dict_converter_returns arg reporter ns Hall [] w) as [d [w1 Hd]].
      rewrite Hd. eexists. eexists. reflexivity.
Qed.

(** X8. A loop raises when its input cannot be iterated, and a chain that
    reaches such a loop raises with it: the [TypeError] of the iteration
    comes out of the call of the chain, the later children are not
    called, and neither the loop's child is called nor anything reported
    for it. *)
Theorem X8_loop_on_a_non_iterable_raises :
  forall c rest nm arg e given w,
    iterate arg = Raise e ->
    call (Chain_init (Loop_init c :: rest) nm) arg given w
    = (Raise e, {| roots := S (S (roots w)); log := log w; calls := calls w |}).
Proof.
  intros c rest nm arg e given w H.
  unfold call, BaseNode_call, bind at 1, new_Reporter at 1.
  unfold Chain_init. rewrite process_Chain, chain_loop_cons.
  unfold bind at 1, call, BaseNode_call, bind at 1, new_Reporter at 1.
  simpl process. unfold bind at 1, lift. rewrite H. reflexivity.
Qed.

(** ** Promotion *)

Lemma mapO_exists {A B} (f : A -> outcome B) (l : list A) :
  Forall (fun a => exists b, f a = Ret b) l -> exists l', mapO f l = Ret l'.
Proof.
  induction 1 as [|a rest [b Hb] _ [l' IH]]; simpl.
  - eexists. reflexivity.
  - rewrite Hb, IH. eexists. reflexivity.
Qed.

Lemma to_async_model_free n :
  (exists n', to_async n = Ret n') <-> model_free n = true.
Proof.
  induction n as [f nm s | ns l nm s IH | c l nm s IH | k ns l nm s IH]
    using BaseNode_ind'; simpl.
  - split; [reflexivity | intros _; eexists; reflexivity].
  - split.
    + intros [n' H].
      destruct (mapO to_async ns) as [ns'|e] eqn:Hm; [|discriminate].
      apply mapO_Ret in Hm. clear H.
      induction Hm as [|a b rest rest' Hab _ IHm]; simpl; [reflexivity|].
      inversion IH as [|? ? Ha Hrest]; subst.
      rewrite (proj1 Ha (ex_intro _ b Hab)). simpl. apply IHm. exact Hrest.
    + intro H.
      assert (Hall : Forall (fun a => exists b, to_async a = Ret b) ns).
      { induction IH as [|x rest Hx _ IHrest]; constructor; simpl in H;
          apply andb_true_iff in H; destruct H as [H1 H2].
        - apply Hx. exact H1.
        - apply IHrest. exact H2. }
      destruct (mapO_exists _ _ Hall) as [ns' Hm]. rewrite Hm.
      eexists. reflexivity.
  - split.
    + intros [n' H]. destruct (to_async c) as [c'|e] eqn:Hc; [|discriminate].
      apply IH. eexists. reflexivity.
    + intro H. destruct (proj2 IH H) as [c' Hc]. rewrite Hc.
      eexists. reflexivity.
  - split; [|discriminate].
    intros [n' H]. destruct (mapO _ ns); discriminate.
Qed.

Lemma to_async_all_normal n :
  forall n', to_async n = Ret n' -> all_normal n' = true.
Proof.
  induction n as [f nm s | ns l nm s IH | c l nm s IH | k ns l nm s IH]
    using BaseNode_ind'; simpl; intros n' H.
  - inversion H. reflexivity.
  - destruct (mapO to_async ns) as [ns'|e] eqn:Hm; [|discriminate].
    inversion H; subst. clear H. apply mapO_Ret in Hm. simpl.
    induction Hm as [|a b rest rest' Hab _ IHm]; simpl; [reflexivity|].
    inversion IH as [|? ? Ha Hrest]; subst.
    rewrite (Ha _ Hab). simpl. apply IHm. exact Hrest.
  - destruct (to_async c) as [c'|e] eqn:Hc; [|discriminate].
    inversion H; subst. simpl. apply IH. reflexivity.
  - destruct (mapO _ ns); discriminate.
Qed.

(** X9. [to_async] returns a tree exactly for the trees without a model,
    anywhere below; in the tree it returns every node has the severity
    [NORMAL], whatever the severities of the original were. *)
Theorem X9_to_async_needs_a_model_free_tree :
  forall n,
    ((exists n', to_async n = Ret n') <-> model_free n = true) /\
    (forall n', to_async n = Ret n' -> all_normal n' = true).
Proof.
  intro n. split; [apply to_async_model_free | apply to_async_all_normal].
Qed.

(** ** Copies of copies *)

Lemma copy_all_normal n : all_normal (copy n) = true.
Proof.
  induction n as [f nm s | ns l nm s IH | c l nm s IH | k ns l nm s IH]
    using BaseNode_ind'; simpl.
  - reflexivity.
  - induction IH as [|x rest Hx _ IHrest]; simpl; [reflexivity|].
    rewrite Hx. exact IHrest.
  - exact IH.
  - induction IH as [|x rest Hx _ IHrest]; simpl; [reflexivity|].
    rewrite Hx. exact IHrest.
Qed.

Lemma copy_copy n : copy (copy n) = copy n.
Proof.
  induction n as [f nm s | ns l nm s IH | c l nm s IH | k ns l nm s IH]
    using BaseNode_ind'; simpl.
  - reflexivity.
  - assert (H : map copy (map copy ns) = map copy ns).
    { induction IH as [|x rest Hx _ IHrest]; simpl; congruence. }
    unfold Chain_init. rewrite H. reflexivity.
  - unfold Loop_init. rewrite IH. reflexivity.
  - assert (H : map (fun bn => (fst bn, copy (snd bn)))
                  (map (fun bn => (fst bn, copy (snd bn))) ns)
                = map (fun bn => (fst bn, copy (snd bn))) ns).
    { induction IH as [|x rest Hx _ IHrest]; simpl; [reflexivity|].
      rewrite Hx, IHrest. reflexivity. }
    unfold Model_init. rewrite H. reflexivity.
Qed.

(** X10. In a copy every node of the tree, not only its root, has the
    severity [NORMAL], and copying the copy gives the same tree again. *)
Theorem X10_copy_is_normal_and_idempotent :
  forall n, all_normal (copy n) = true /\ copy (copy n) = copy n.
Proof.
  intro n. split; [apply copy_all_normal | apply copy_copy].
Qed.

(** ** Building the concurrent form *)

Lemma enumerate_from_keys {A} (l : list A) :
  forall s,
    map fst (enumerate_from (Z.of_nat s) l)
    = map (fun i => VInt (Z.of_nat i)) (seq s (List.length l)).
Proof.
  induction l as [|a rest IH]; intro s; simpl.
  - reflexivity.
  - f_equal. rewrite <- IH. rewrite Nat2Z.inj_succ.
    replace (Z.succ (Z.of_nat s)) with (Z.of_nat s + 1)%Z by lia.
    reflexivity.
Qed.

(** X11. When [async_build] returns on a list it returns the ordered
    model whose branches are the built items in the order of the list,
    keyed 0, 1, 2 and so on; on a dict, the keyed model with the dict's
    keys in their order, each with its built item. *)
Theorem X11_async_build_of_a_collection :
  (forall items m,
      async_build (CList items) = Ret m ->
      exists ns,
        m = Model_init ListModel (enumerate_from 0 ns) /\
        Forall2 (fun item n => async_build item = Ret n) items ns /\
        map fst (enumerate_from 0 ns)
        = map (fun i => VInt (Z.of_nat i)) (seq 0 (List.length items))) /\
  (forall items m,
      async_build (CDict items) = Ret m ->
      exists ns,
        m = Model_init DictModel ns /\
        map fst ns = map fst items /\
        Forall2 (fun item bn => async_build (snd item) = Ret (snd bn)) items ns).
Proof.
  split; intros items m H; simpl in H.
  - destruct (mapO async_build items) as [ns|e] eqn:Hm; [|discriminate].
    inversion H; subst. apply mapO_Ret in Hm. exists ns.
    split; [reflexivity|]. split; [exact Hm|].
    rewrite (Forall2_length Hm). apply (enumerate_from_keys ns 0).
  - match type of H with
    | match mapO ?f items with _ => _ end = _ =>
        destruct (mapO f items) as [ns|e] eqn:Hm; [|discriminate]
    end.
    inversion H; subst. clear H. apply mapO_Ret in Hm. exists ns.
    split; [reflexivity|].
    induction Hm as [|item bn rest rest' Hi _ [IH1 IH2]]; simpl.
    + split; [reflexivity | constructor].
    + destruct (async_build (snd item)) as [n|e] eqn:Hb; [|discriminate].
      inversion Hi; subst. simpl. split; [congruence|].
      constructor; assumption.
Qed.

(** X12. [nd] never returns a model for a dict: [is_node_async] sees only
    the key and value tuples of a dict, so a dict goes to [build], which
    raises on it.  For a list [nd] returns only when some item is
    concurrent, and then it returns a node of the [Async] classes. *)
Theorem X12_nd_on_collections :
  (forall items, exists e, nd (Some (CDict items)) = Raise e) /\
  (forall items h n,
      nd (Some (CList items)) = Ret (h, n) ->
      h = Async /\ existsb is_node_async items = true).
Proof.
  split.
  - intros [|x rest]; eexists; reflexivity.
  - intros items h n H. unfold nd in H. simpl is_node_async in H.
    destruct (existsb is_node_async items) eqn:He.
    + destruct (async_build (CList items)); [|discriminate].
      inversion H. auto.
    + destruct items; discriminate.
Qed.

(** ** Ordered models *)

Lemma list_converter_complete arg reporter nodes :
  forall w items w',
    list_converter (map (branch_step arg reporter) nodes) w = (Ret items, w') ->
    exists outs,
      model_spec arg reporter nodes w outs w' /\
      items = map snd (surviving outs).
Proof.
  induction nodes as [|[b n] rest IH]; intros w items w' H.
  - simpl in H. unfold ret in H. inversion H; subst.
    exists []. split; [constructor | reflexivity].
  - simpl map in H. simpl list_converter in H. unfold bind at 1 in H.
    unfold branch_step at 1 in H. simpl fst in H; simpl snd in H.
    unfold bind at 1 in H.
    destruct (call n arg (Some (scoped reporter b)) w) as [[res|e] w1] eqn:Hc;
      [|discriminate].
    unfold ret at 1 in H. unfold bind at 1 in H.
    destruct (list_converter (map (branch_step arg reporter) rest) w1)
      as [[out|e] w2] eqn:Hr; [|discriminate].
    destruct (IH _ _ _ Hr) as [outs [Hm Ho]].
    unfold ret in H. inversion H; subst.
    exists ((b, res, severity n) :: outs). split; [econstructor; eassumption|].
    simpl. unfold keep.
    destruct (is_None res && is_OPTIONAL (severity n)); reflexivity.
Qed.

Lemma surviving_all arg reporter nodes w outs w' :
  model_spec arg reporter nodes w outs w' ->
  Forall (fun bn => severity (snd bn) <> OPTIONAL) nodes ->
  map snd (surviving outs) = map (fun o => snd (fst o)) outs.
Proof.
  induction 1 as [w | branch node rest w result w' outs w'' Hc _ IH]; intro Hs.
  - reflexivity.
  - inversion Hs as [|? ? Hn Hrest]; subst. simpl in Hn. simpl.
    destruct (severity node); try congruence;
      rewrite andb_false_r; simpl; rewrite (IH Hrest); reflexivity.
Qed.

Lemma model_spec_branches arg reporter nodes w outs w' :
  model_spec arg reporter nodes w outs w' ->
  List.length outs = List.length nodes /\
  map (fun o => fst (fst o)) outs = map fst nodes.
Proof.
  induction 1 as [w | branch node rest w result w' outs w'' Hc _ [IH1 IH2]].
  - split; reflexivity.
  - simpl. rewrite IH1, IH2. split; reflexivity.
Qed.


(** X13. An ordered model none of whose branches is OPTIONAL returns a
    value exactly when the call of every branch's child returns, and the
    value is then the list of what the children returned: exactly one
    item per branch, in the order of the branches, [None] standing where
    a result was absent.  When the child of a branch raises, the model
    returns nothing. *)
Theorem X13_list_model_keeps_positions :
  forall nodes l nm s arg reporter w,
    Forall (fun bn => severity (snd bn) <> OPTIONAL) nodes ->
    (forall v w',
        process (Model ListModel nodes l nm s) arg reporter w = (Ret v, w') <->
        exists outs,
          model_spec arg reporter nodes w outs w' /\
          v = VList (map (fun o => snd (fst o)) outs)) /\
    (forall outs w',
        model_spec arg reporter nodes w outs w' ->
        List.length outs = List.length nodes /\
        map (fun o => fst (fst o)) outs = map fst nodes).
Proof.
  intros nodes l nm s arg reporter w Hs. split.
  - intros v w'. split.
    + intro H. rewrite process_Model in H. unfold convert, bind in H.
      destruct (list_converter (map (branch_step arg reporter) nodes) w)
        as [[items|e] w1] eqn:Hl; [|discriminate].
      unfold ret in H. inversion H; subst.
      destruct (list_converter_complete _ _ _ _ _ _ Hl) as [outs [Hm Hi]].
      exists outs. split; [exact Hm|].
      rewrite Hi, (surviving_all _ _ _ _ _ _ Hm Hs). reflexivity.
    + intros [outs [Hm Hv]]. subst v. rewrite process_Model. unfold convert.
      rewrite (bind_Ret _ _ _ _ _ (list_converter_spec _ _ _ _ _ _ Hm)).
      rewrite (surviving_all _ _ _ _ _ _ Hm Hs). reflexivity.
  - intros outs w' Hm. exact (model_spec_branches _ _ _ _ _ _ Hm).
Qed.

(** ** Instances *)

Lemma X1_get_returns_the_registered_chain_witness :
  chains._register quote (chains.split_dots "a.b") failing_chain []
    = (None, registry_ab) /\
  chains.get (VStr "a.b") registry_ab = Ret [failing_chain].
Proof.
  assert (H : chains._register quote (chains.split_dots "a.b") failing_chain []
              = (None, registry_ab)) by reflexivity.
  split; [exact H|].
  exact (X1_get_returns_the_registered_chain quote "a.b" failing_chain []
           registry_ab H).
Defined.

Lemma X2_registering_a_name_twice_fails_witness :
  ["a"; "b"]%string <> [] /\
  chains._register quote ["a"; "b"]%string failing_chain [] = (None, registry_ab) /\
  chains._register quote ["a"; "b"]%string doubling_chain registry_ab
    = (Some (ValueError "The name 'a.b' is already registered"), registry_ab).
Proof.
  assert (Hne : ["a"; "b"]%string <> []) by discriminate.
  assert (H : chains._register quote ["a"; "b"]%string failing_chain []
              = (None, registry_ab)) by reflexivity.
  split; [exact Hne|]. split; [exact H|].
  exact (X2_registering_a_name_twice_fails quote ["a"; "b"]%string failing_chain
           doubling_chain [] registry_ab Hne H).
Defined.

Lemma X3_failed_registration_changes_nothing_witness :
  chains._register quote ["a"; "b"; "c"]%string doubling_chain registry_ab
    = (Some (ValueError "The name 'a.b' is already registered"), registry_ab) /\
  registry_ab = registry_ab.
Proof.
  assert (H : chains._register quote ["a"; "b"; "c"]%string doubling_chain registry_ab
              = (Some (ValueError "The name 'a.b' is already registered"),
                 registry_ab)) by reflexivity.
  split; [exact H|].
  exact (X3_failed_registration_changes_nothing quote ["a"; "b"; "c"]%string
           doubling_chain registry_ab _ registry_ab H).
Defined.

Lemma X4_get_of_a_prefix_finds_the_chain_witness :
  (["a"%string] ++ ["b"%string]) <> [] /\
  chains._register quote (["a"%string] ++ ["b"%string]) failing_chain [] = (None, registry_ab) /\
  In failing_chain (chains.get_loop ["a"%string] registry_ab).
Proof.
  assert (Hne : (["a"%string] ++ ["b"%string]) <> []) by discriminate.
  assert (H : chains._register quote (["a"%string] ++ ["b"%string]) failing_chain []
              = (None, registry_ab)) by reflexivity.
  split; [exact Hne|]. split; [exact H|].
  exact (proj1 (X4_get_of_a_prefix_finds_the_chain quote ["a"%string]
                  ["b"%string] failing_chain [] registry_ab Hne H)).
Defined.

Lemma X5_registration_keeps_earlier_lookups_witness :
  chains._register quote ["a"; "c"]%string doubling_chain registry_ab
    = (None, registry_abc) /\
  chains.get (VStr "a") registry_ab = Ret [failing_chain] /\
  chains.get (VStr "a") registry_abc = Ret [failing_chain; doubling_chain] /\
  In failing_chain [failing_chain] /\
  In failing_chain [failing_chain; doubling_chain].
Proof.
  assert (H : chains._register quote ["a"; "c"]%string doubling_chain registry_ab
              = (None, registry_abc)) by reflexivity.
  assert (Hin : In failing_chain [failing_chain]) by (left; reflexivity).
  split; [exact H|]. split; [reflexivity|]. split; [reflexivity|].
  split; [exact Hin|].
  exact (X5_registration_keeps_earlier_lookups quote ["a"; "c"]%string
           doubling_chain registry_ab registry_abc (VStr "a") [failing_chain]
           [failing_chain; doubling_chain] failing_chain H eq_refl eq_refl Hin).
Defined.

Lemma X6_pipe_appends_and_composes_witness :
  Chain_or doubling (CFunc identity)
    = Ret (Sync, Chain_init [Node_init double "double";
                             Node_init identity "identity"] None) /\
  exists n,
    build (CFunc identity) = Ret n /\
    len (Chain_init [Node_init double "double"; Node_init identity "identity"] None)
    = list_sum (map len [Node_init double "double"]) + len n.
Proof.
  assert (H : Chain_or doubling (CFunc identity)
              = Ret (Sync, Chain_init [Node_init double "double";
                                       Node_init identity "identity"] None))
    by reflexivity.
  split; [exact H|].
  destruct (X6_pipe_appends_and_composes [Node_init double "double"] _ None NORMAL
              (CFunc identity) _ H) as [n [Hb [_ [Hl _]]]].
  exists n. split; [exact Hb | exact Hl].
Defined.

Lemma X7_calm_trees_never_raise_witness :
  calm calm_tree /\
  exists v w', call calm_tree (VInt 1) None world0 = (Ret v, w').
Proof.
  assert (Hd : well_behaved double).
  { split; [reflexivity|]. intros a e. destruct a; simpl; intro H;
      inversion H; reflexivity. }
  assert (Hf : well_behaved failing).
  { split; [reflexivity|]. intros a e H. inversion H. reflexivity. }
  assert (H : calm calm_tree).
  { simpl. repeat split; try exact Hd; try exact Hf; try apply Hd; try apply Hf. }
  split; [exact H|].
  exact (X7_calm_trees_never_raise calm_tree H (VInt 1) None world0).
Defined.

Lemma X8_loop_on_a_non_iterable_raises_witness :
  iterate (VInt 3) = Raise (TypeError "object is not iterable") /\
  call (Chain_init [Loop_init (Node_init double "double");
                    Node_init identity "identity"] None) (VInt 3) None world0
  = (Raise (TypeError "object is not iterable"),
     {| roots := 2; log := []; calls := [] |}).
Proof.
  assert (H : iterate (VInt 3) = Raise (TypeError "object is not iterable"))
    by reflexivity.
  split; [exact H|].
  exact (X8_loop_on_a_non_iterable_raises (Node_init double "double")
           [Node_init identity "identity"] None (VInt 3) _ None world0 H).
Defined.

Lemma X13_list_model_keeps_positions_witness :
  Forall (fun bn => severity (snd bn) <> OPTIONAL) two_branches /\
  model_spec (VInt 1) root0 two_branches world1 two_outs world_two_branches /\
  process (Model_init ListModel two_branches) (VInt 1) root0 world1
    = (Ret (VList [VInt 2; VNone]), world_two_branches).
Proof.
  assert (H : model_spec (VInt 1) root0 two_branches world1 two_outs
                world_two_branches).
  { unfold two_branches, two_outs.
    eapply (model_branch _ _ _ (Node_init double "double")); [reflexivity|].
    eapply (model_branch _ _ _ (required (Node_init failing "failing")));
      [reflexivity|].
    apply model_done. }
  assert (Hs : Forall (fun bn => severity (snd bn) <> OPTIONAL) two_branches).
  { repeat constructor; discriminate. }
  split; [exact Hs|]. split; [exact H|].
  exact (proj2 (proj1 (X13_list_model_keeps_positions two_branches _ None NORMAL
                         (VInt 1) root0 world1 Hs)
                  (VList [VInt 2; VNone]) world_two_branches)
           (ex_intro _ two_outs (conj H eq_refl))).
Defined.

(** ** The two forms of a tree without models *)

Lemma to_async_severity n n' : to_async n = Ret n' -> severity n' = NORMAL.
Proof.
  destruct n as [f nm s | ns l nm s | c l nm s | k ns l nm s]; simpl; intro H.
  - inversion H. reflexivity.
  - destruct (mapO to_async ns); inversion H. reflexivity.
  - destruct (to_async c); inversion H. reflexivity.
  - destruct (mapO _ ns); discriminate.
Qed.

Lemma agree_refl o : agree o o.
Proof. destruct o as [v|e]; simpl; [reflexivity | exists e; reflexivity]. Qed.

Lemma collect_Ret {A} (os : list (outcome A)) results :
  collect os = Ret results -> os = map Ret results.
Proof.
  revert results. induction os as [|[a|e] rest IH]; simpl; intros results H.
  - inversion H. reflexivity.
  - destruct (collect rest) as [l|e]; [|discriminate].
    inversion H; subst. simpl. rewrite (IH l eq_refl). reflexivity.
  - discriminate.
Qed.

Lemma collect_Raise {A} (os : list (outcome A)) e :
  collect os = Raise e -> Exists (fun o => exists e', o = Raise e') os.
Proof.
  induction os as [|[a|e0] rest IH]; simpl; intro H.
  - discriminate.
  - destruct (collect rest) as [l|e1]; [discriminate|].
    apply Exists_cons_tl. apply IH. exact H.
  - apply Exists_cons_hd. exists e0. reflexivity.
Qed.

Section Parity.

Variable gather : list (M value) -> M (list value).
Hypothesis gather_ret : gather_returns gather.
Hypothesis gather_err : gather_raises gather.

Lemma same_output_leaf f nm s :
  fn_async f = false ->
  same_output gather (Node f nm s) (Node_init (asyncify f) nm).
Proof.
  intro Ha.
  exists (fun a => match fn_body f a with
                   | Ret v => Ret v
                   | Raise e => if is_Exception e then Ret VNone else Raise e
                   end).
  split; intros a r w.
  - simpl. unfold try_report, apply_func, await_func, bind, called, lift; simpl.
    rewrite ?Ha; destruct (fn_body f a) as [v|e]; try reflexivity;
      destruct (is_Exception e); reflexivity.
  - match goal with |- agree ?o ?o' => replace o' with o end; [apply agree_refl|].
    simpl. unfold try_report, apply_func, await_func, bind, called, lift; simpl.
    rewrite ?Ha; destruct (fn_body f a) as [v|e]; try reflexivity;
      destruct (is_Exception e); reflexivity.
Qed.

Lemma call_output n F g :
  (forall a r w, fst (process n a r w) = F a) ->
  forall a w, fst (call n a g w) = F a.
Proof.
  intros H a w. unfold call, BaseNode_call, bind, new_Reporter. apply H.
Qed.

Lemma acall_output n' F g :
  (forall a r w, agree (F a) (fst (aprocess gather n' a r w))) ->
  forall a w, agree (F a) (fst (acall gather n' a g w)).
Proof.
  intros H a w. unfold acall, await, BaseNode_call_async, bind, new_Reporter, ret.
  apply H.
Qed.

Lemma same_output_chain ns ns' :
  Forall2 (fun c c' => same_output gather c c' /\
                       is_OPTIONAL (severity c) = false /\
                       severity c' = NORMAL) ns ns' ->
  exists F : value -> outcome value,
    (forall nm r a w, fst (chain_loop call nm r ns a w) = F a) /\
    (forall nm r a w,
        agree (F a)
          (fst (chain_loop (fun node a r => acall gather node a r) nm r ns' a w))).
Proof.
  induction 1 as [|c c' rest rest' [[F0 [Hs Ha]] [Ho Hn]] _ [Fr [IHs IHa]]].
  - exists (fun a => Ret a). split; reflexivity.
  - exists (fun a => match F0 a with
                     | Ret res => if is_None res then Ret VNone else Fr res
                     | Raise e => Raise e
                     end).
    split; intros nm r a w; rewrite chain_loop_cons; unfold bind.
    + pose proof (call_output c F0 (Some (scoped r (name_value nm))) Hs a w) as Hc.
      destruct (call c a (Some (scoped r (name_value nm))) w) as [[res|e] w1];
        simpl in Hc; rewrite <- Hc; [|reflexivity].
      rewrite Ho. destruct (is_None res); [reflexivity | apply IHs].
    + pose proof (acall_output c' F0 (Some (scoped r (name_value nm))) Ha a w) as Hc.
      destruct (acall gather c' a (Some (scoped r (name_value nm))) w)
        as [[res|e] w1]; simpl in Hc; destruct (F0 a) as [res0|e0]; simpl in Hc.
      * inversion Hc; subst res0. rewrite Hn. simpl.
        destruct (is_None res); [reflexivity | apply IHa].
      * destruct Hc as [e' He']. discriminate.
      * discriminate.
      * simpl. exists e. reflexivity.
Qed.

Lemma loop_each_output c F g :
  (forall a r w, fst (process c a r w) = F a) ->
  forall xs w,
    fst (loop_each (fun a => call c a g) xs w)
    = match collect (map F xs) with
      | Ret results => Ret (filter present results)
      | Raise e => Raise e
      end.
Proof.
  intros H xs. induction xs as [|x rest IH]; intro w.
  - reflexivity.
  - simpl loop_each. unfold bind at 1.
    pose proof (call_output c F g H x w) as Hc.
    destruct (call c x g w) as [[res|e] w1]; simpl in Hc; simpl map;
      rewrite <- Hc; [|reflexivity].
    simpl collect. unfold bind. specialize (IH w1).
    destruct (loop_each (fun a => call c a g) rest w1) as [[out|e] w2];
      simpl in IH; destruct (collect (map F rest)) as [results|e'];
      try discriminate; inversion IH; subst; simpl; unfold present;
      destruct (is_None res); reflexivity.
Qed.

Lemma each_tasks c' g xs :
  forall w, exists tasks w1,
    each (fun a => BaseNode_call_async (aprocess gather) c' a g) xs w = (Ret tasks, w1) /\
    Forall2 (fun a t => exists r, t = aprocess gather c' a r) xs tasks.
Proof.
  induction xs as [|x rest IH]; intro w.
  - exists [], w. split; [reflexivity | constructor].
  - simpl each. unfold bind at 1. unfold BaseNode_call_async at 1.
    unfold bind at 1, new_Reporter at 1, ret at 1.
    destruct (IH {| roots := S (roots w); log := log w; calls := calls w |})
      as [tasks [w2 [He Hf]]].
    rewrite (bind_Ret _ _ _ _ _ He).
    eexists. eexists. split; [reflexivity|].
    constructor; [eexists; reflexivity | exact Hf].
Qed.

Lemma tasks_return c' F xs tasks results :
  (forall a r w, agree (F a) (fst (aprocess gather c' a r w))) ->
  Forall2 (fun a t => exists r, t = aprocess gather c' a r) xs tasks ->
  map F xs = map Ret results ->
  Forall2 (fun t r => forall w, fst (t w) = Ret r) tasks results.
Proof.
  intros H Hf. revert results.
  induction Hf as [|x t rest tasks' [r Ht] _ IH]; intros [|v results] Hm;
    try discriminate; constructor.
  - intro w. subst t. simpl in Hm. injection Hm as Hx _.
    pose proof (H x r w) as Hg. rewrite Hx in Hg. exact Hg.
  - apply IH. simpl in Hm. injection Hm as _ Hrest. exact Hrest.
Qed.

Lemma tasks_raise c' F xs tasks :
  (forall a r w, agree (F a) (fst (aprocess gather c' a r w))) ->
  Forall2 (fun a t => exists r, t = aprocess gather c' a r) xs tasks ->
  Exists (fun o => exists e, o = Raise e) (map F xs) ->
  Exists (fun t => forall w, exists e, fst (t w) = Raise e) tasks.
Proof.
  intros H Hf.
  induction Hf as [|x t rest tasks' [r Ht] _ IH]; simpl; intro He.
  - inversion He.
  - inversion He as [? ? [e Hx]|? ? Hrest]; subst.
    + apply Exists_cons_hd. intro w.
      pose proof (H x r w) as Hg. rewrite Hx in Hg. exact Hg.
    + apply Exists_cons_tl. exact (IH Hrest).
Qed.

Lemma same_output_loop c c' l nm s :
  same_output gather c c' ->
  same_output gather (Loop c l nm s) (Loop_init c').
Proof.
  intros [F [Hs Ha]]. exists (loop_output F).
  split; intros a r w; unfold loop_output.
  - simpl process. unfold bind at 1, lift at 1.
    destruct (iterate a) as [xs|e]; [|reflexivity].
    unfold bind.
    pose proof (loop_each_output c F (Some r) Hs xs w) as Hl.
    change (fun a0 => BaseNode_call process c a0 (Some r))
      with (fun a0 => call c a0 (Some r)).
    destruct (loop_each (fun a0 => call c a0 (Some r)) xs w) as [[out|e] w1];
      simpl in Hl; destruct (collect (map F xs)) as [results|e'];
      try discriminate; inversion Hl; reflexivity.
  - unfold Loop_init. simpl aprocess. unfold bind at 1, lift at 1.
    destruct (iterate a) as [xs|e]; [|simpl; exists e; reflexivity].
    unfold bind at 1.
    destruct (each_tasks c' (Some r) xs w) as [tasks [w1 [He Hf]]].
    rewrite He. unfold bind.
    destruct (collect (map F xs)) as [results|e] eqn:Hc.
    + apply collect_Ret in Hc.
      pose proof (gather_ret tasks results
                    (tasks_return c' F xs tasks results Ha Hf Hc) w1) as Hg.
      destruct (gather tasks w1) as [[rs|e] w2]; simpl in Hg;
        [|discriminate]. inversion Hg; subst. reflexivity.
    + apply collect_Raise in Hc.
      destruct (gather_err tasks (tasks_raise c' F xs tasks Ha Hf Hc) w1)
        as [e' Hg].
      destruct (gather tasks w1) as [[rs|e2] w2]; simpl in Hg;
        [discriminate|]. simpl. exists e2. reflexivity.
Qed.

Lemma plain_same_output n :
  plain n = true ->
  forall n', to_async n = Ret n' -> same_output gather n n'.
Proof.
  induction n as [f nm s | ns l nm s IH | c l nm s IH | k ns l nm s IH]
    using BaseNode_ind'; simpl; intros Hp n' H.
  - inversion H; subst. apply same_output_leaf.
    destruct (fn_async f); [discriminate | reflexivity].
  - destruct (mapO to_async ns) as [ns'|e] eqn:Hm; [|discriminate].
    inversion H; subst. clear H. apply mapO_Ret in Hm.
    assert (Hall : Forall2 (fun c c' => same_output gather c c' /\
                                        is_OPTIONAL (severity c) = false /\
                                        severity c' = NORMAL) ns ns').
    { induction Hm as [|a b rest rest' Hab _ IHm]; constructor.
      - inversion IH as [|? ? Ha _]; subst. simpl in Hp.
        apply andb_true_iff in Hp. destruct Hp as [Hp1 _].
        apply andb_true_iff in Hp1. destruct Hp1 as [Ho Hpa].
        split; [exact (Ha Hpa b Hab)|]. split.
        + destruct (is_OPTIONAL (severity a)); [discriminate | reflexivity].
        + exact (to_async_severity a b Hab).
      - inversion IH as [|? ? _ Hrest]; subst. simpl in Hp.
        apply andb_true_iff in Hp. destruct Hp as [_ Hp2].
        exact (IHm Hrest Hp2). }
    destruct (same_output_chain ns ns' Hall) as [F [Hs Ha]].
    exists F. split; intros a r w.
    + rewrite process_Chain. apply Hs.
    + unfold Chain_init. simpl aprocess. apply Ha.
  - destruct (to_async c) as [c'|e] eqn:Hc; [|discriminate].
    inversion H; subst. apply same_output_loop. exact (IH Hp c' eq_refl).
  - discriminate.
Qed.

End Parity.

Lemma gather_in_turn_returns : gather_returns gather_in_turn.
Proof.
  intros tasks results Hf. unfold gather_in_turn.
  induction Hf as [|t r tasks' results' Ht _ IH]; intro w.
  - reflexivity.
  - simpl. specialize (Ht w). destruct (t w) as [o w1]. simpl in Ht. subst o.
    specialize (IH w1). destruct (run_in_turn tasks' w1) as [os w2].
    simpl in IH |- *. rewrite IH. reflexivity.
Qed.

Lemma gather_in_turn_raises : gather_raises gather_in_turn.
Proof.
  intros tasks He. unfold gather_in_turn.
  induction He as [t tasks' Ht | t tasks' _ IH]; intro w; simpl.
  - destruct (Ht w) as [e Hw]. destruct (t w) as [o w1]. simpl in Hw. subst o.
    destruct (run_in_turn tasks' w1) as [os w2]. simpl. exists e. reflexivity.
  - destruct (t w) as [[v|e] w1].
    + specialize (IH w1). destruct (run_in_turn tasks' w1) as [os w2].
      simpl in IH |- *. destruct IH as [e He']. rewrite He'.
      exists e. reflexivity.
    + destruct (run_in_turn tasks' w1) as [os w2]. simpl. exists e. reflexivity.
Qed.

(** X14. Let [asyncio.gather] keep its promise under whatever schedule:
    the results in the order of the tasks when every task returns, an
    error when a task raises.  For a tree of leaves, chains and loops
    whose leaves wrap plain functions and in whose chains no child is
    OPTIONAL, whenever the call of the tree returns a value the awaited
    call of its [to_async] form returns the same value, in whatever
    worlds the two run, with a loop's results in the order of its
    elements; and whenever the call of the tree raises, the awaited call
    raises too, though the error may be another one. *)
Theorem X14_sync_and_concurrent_forms_agree :
  forall gather,
    gather_returns gather ->
    gather_raises gather ->
    forall n n',
      plain n = true ->
      to_async n = Ret n' ->
      forall arg given given' w w',
        (forall v, fst (call n arg given w) = Ret v ->
                   fst (acall gather n' arg given' w') = Ret v) /\
        (forall e, fst (call n arg given w) = Raise e ->
                   exists e', fst (acall gather n' arg given' w') = Raise e').
Proof.
  intros gather Hr He n n' Hp H arg given given' w w'.
  destruct (plain_same_output gather Hr He n Hp n' H) as [F [Hs Ha]].
  pose proof (acall_output gather n' F given' Ha arg w') as Hg.
  rewrite (call_output n F given Hs arg w).
  split; intros x Hx; rewrite Hx in Hg; exact Hg.
Qed.

Lemma X14_sync_and_concurrent_forms_agree_witness :
  gather_returns gather_in_turn /\
  gather_raises gather_in_turn /\
  plain plain_tree = true /\
  to_async plain_tree = Ret plain_tree_async /\
  fst (call plain_tree (VList [VInt 1; VInt 2; VInt 3]) None world0)
    = Ret (VList [VInt 20; VInt 60]) /\
  fst (acall gather_in_turn plain_tree_async (VList [VInt 1; VInt 2; VInt 3])
         None world1)
    = Ret (VList [VInt 20; VInt 60]).
Proof.
  assert (Hp : plain plain_tree = true) by reflexivity.
  assert (Ha : to_async plain_tree = Ret plain_tree_async) by reflexivity.
  assert (Hc : fst (call plain_tree (VList [VInt 1; VInt 2; VInt 3]) None world0)
               = Ret (VList [VInt 20; VInt 60])) by reflexivity.
  split; [exact gather_in_turn_returns|].
  split; [exact gather_in_turn_raises|].
  split; [exact Hp|]. split; [exact Ha|]. split; [exact Hc|].
  exact (proj1 (X14_sync_and_concurrent_forms_agree gather_in_turn
                  gather_in_turn_returns gather_in_turn_raises
                  plain_tree plain_tree_async Hp Ha
                  (VList [VInt 1; VInt 2; VInt 3]) None None world0 world1)
           _ Hc).
Defined.

(** ** Report handlers *)

(** X15. When the core of a chain object returns the pair of a success
    flag and a result, the chain object returns the result after it ran
    the handlers registered for that flag.  With no handler it returns
    the result at once.  A handler added with [always] false runs when
    the flag is [False] and is not called when it is [True]; a handler
    added with [always] true runs in both cases; what a handler raises
    comes out of the call. *)
Theorem X15_handlers_run_by_the_success_flag :
  forall c h always input w b result w1,
    call (chains.core c) input None (snd (new_Reporter VNone w))
      = (Ret (VTuple [VBool b; result]), w1) ->
    let rep := {| chains.rep_records :=
                    received {| rp_root := roots w; rp_scope := [VNone] |} w1;
                  chains.rep_nodes := chains.nodes c;
                  chains.rep_required := chains.required_nodes c |} in
    chains.Chain_call (chains.clear_report_handlers c) input w = (Ret result, w1) /\
    chains.Chain_call
      (chains.add_report_handler (chains.clear_report_handlers c) h always) input w
    = (if b && negb always then Ret result
       else match h rep with
            | None => Ret result
            | Some e => Raise e
            end, w1).
Proof.
  intros c h always input w b result w1 H rep.
  unfold new_Reporter in H. simpl snd in H.
  split.
  - unfold chains.Chain_call. unfold bind at 1. unfold new_Reporter at 1.
    change (call (chains.core (chains.clear_report_handlers c)) input
              (Some {| rp_root := roots w; rp_scope := [VNone] |}))
      with (call (chains.core c) input None).
    rewrite (bind_Ret _ _ _ _ _ H).
    destruct b; reflexivity.
  - unfold chains.Chain_call. unfold bind at 1. unfold new_Reporter at 1.
    change (call (chains.core
                    (chains.add_report_handler (chains.clear_report_handlers c)
                       h always)) input
              (Some {| rp_root := roots w; rp_scope := [VNone] |}))
      with (call (chains.core c) input None).
    rewrite (bind_Ret _ _ _ _ _ H).
    destruct b, always; simpl; unfold bind, lift, chains.report; simpl;
      try reflexivity; fold rep; destruct (h rep); reflexivity.
Qed.

Lemma X15_handlers_run_by_the_success_flag_witness :
  call (chains.core flagged_chain) (VInt 4) None (snd (new_Reporter VNone world0))
    = (Ret (VTuple [VBool false; VInt 4]), world_flagged) /\
  chains.Chain_call (chains.clear_report_handlers flagged_chain) (VInt 4) world0
    = (Ret (VInt 4), world_flagged) /\
  chains.Chain_call
    (chains.add_report_handler (chains.clear_report_handlers flagged_chain)
       alarm false) (VInt 4) world0
    = (Raise (UserException "Alarm"), world_flagged).
Proof.
  assert (H : call (chains.core flagged_chain) (VInt 4) None
                (snd (new_Reporter VNone world0))
              = (Ret (VTuple [VBool false; VInt 4]), world_flagged))
    by reflexivity.
  split; [exact H|].
  exact (X15_handlers_run_by_the_success_flag flagged_chain alarm false (VInt 4)
           world0 false (VInt 4) world_flagged H).
Defined.

(** ** Piping into a loop *)

(** X16. [chain * other] on a synchronous chain, when it yields a
    synchronous chain, is the chain of the old children followed by a
    loop over the node built from [other]; its size is the old children's
    plus the built node's, and on an input other than [None] it runs the
    old chain and, unless that ended with an absent result, calls the
    loop on what the old chain returned. *)
Theorem X16_star_appends_a_loop :
  forall ns l nm s other piped,
    Chain_mul (Chain ns l nm s) other = Ret (Sync, piped) ->
    exists n,
      build other = Ret n /\
      piped = Chain_init (ns ++ [Loop_init n]) nm /\
      len piped = list_sum (map len ns) + len n /\
      forall arg reporter w,
        arg <> VNone ->
        process piped arg reporter w
        = and_then (process (Chain ns l nm s) arg reporter)
                   (fun v => call (Loop_init n) v None) w.
Proof.
  intros ns l nm s other piped H. unfold Chain_mul in H.
  destruct (is_node_async other).
  - destruct (to_async (Chain ns l nm s)) as [aself|e]; [|discriminate].
    destruct (AsyncChain_mul aself other); discriminate.
  - destruct (build other) as [n|e] eqn:Hb; [|discriminate].
    inversion H; subst. exists n.
    split; [reflexivity|]. split; [reflexivity|]. split.
    + simpl. rewrite map_app, list_sum_app. simpl. lia.
    + intros arg reporter w Harg. simpl chain_nodes.
      unfold Chain_init. rewrite !process_Chain.
      rewrite (chain_loop_app call nm reporter ns [Loop_init n] arg w Harg).
      unfold and_then, bind.
      destruct (chain_loop call nm reporter ns arg w) as [[v|e] w1];
        [|reflexivity].
      destruct (is_None v); [reflexivity|].
      rewrite chain_loop_cons. unfold bind.
      change (call (Loop_init n) v (Some (scoped reporter (name_value nm))) w1)
        with (call (Loop_init n) v None w1).
      destruct (call (Loop_init n) v None w1) as [[res|e] w2]; [|reflexivity].
      simpl. destruct res; reflexivity.
Qed.

Lemma X16_star_appends_a_loop_witness :
  Chain_mul doubling (CFunc identity)
    = Ret (Sync, Chain_init [Node_init double "double";
                             Loop_init (Node_init identity "identity")] None) /\
  exists n,
    build (CFunc identity) = Ret n /\
    len (Chain_init [Node_init double "double";
                     Loop_init (Node_init identity "identity")] None)
    = list_sum (map len [Node_init double "double"]) + len n.
Proof.
  assert (H : Chain_mul doubling (CFunc identity)
              = Ret (Sync, Chain_init [Node_init double "double";
                                       Loop_init (Node_init identity "identity")]
                             None))
    by reflexivity.
  split; [exact H|].
  destruct (X16_star_appends_a_loop [Node_init double "double"] _ None NORMAL
              (CFunc identity) _ H) as [n [Hb [_ [Hl _]]]].
  exists n. split; [exact Hb | exact Hl].
Defined.
